(** * mdevaluate: content checksums and shifted correlations

    A shallow embedding of [mdevaluate/checksum.py] and of the scheduling
    part of [mdevaluate/correlation.py], with the properties of the
    caching pipeline that the specification states about them.

    Conventions of the embedding.
    - [bytes] values are lists of [Byte.byte].
    - A [str] is represented by the [String.string] that holds its UTF-8
      encoding, so [str.encode()] is the byte-for-byte conversion
      [encode]; byte-wise lexicographic order of UTF-8 coincides with the
      code-point order Python uses to compare [str] values.
    - Python integers are [Z].
    - [hashlib.md5] is the MD5 function of RFC 1321, written out below.
    - Python floats ([window], [skip], frame times, correlation values)
      are idealised as exact rationals [Q]; the transcendental functions
      behind [numpy.logspace] are idealised as exact real functions.
      The arithmetic of lines 78 to 84 of correlation.py is also written
      out over binary64 floats, for the inputs on which rounding is to be
      ruled out. *)

From Stdlib.Strings Require Import String Ascii Byte.
From Stdlib Require Import ZArith List Bool Lia.
From Stdlib Require Import Decimal DecimalString.
From Stdlib Require Import Permutation Sorted.
From Stdlib Require Import QArith Qround.
From Stdlib Require Import Reals Lra Lqa.
From Stdlib Require Import Floats.
Import ListNotations.

Local Open Scope Z_scope.

(** ** Bytes and integers *)

Definition bytes := list byte.

Definition byte_to_Z (b : byte) : Z := Z.of_N (Byte.to_N b).

Definition byte_of_Z (z : Z) : byte :=
  match Byte.of_N (Z.to_N (z mod 256)) with
  | Some b => b
  | None => x00
  end.

(** [s.encode()] for a [str] held as its UTF-8 bytes. *)
Definition encode (s : string) : bytes := list_byte_of_string s.

(** [str(n)] for a Python integer. *)
Definition str_of_int (n : Z) : string := NilZero.string_of_int (Z.to_int n).

(** [int.from_bytes(b, 'big')]. *)
Definition int_from_bytes_big (b : bytes) : Z :=
  fold_left (fun acc x => acc * 256 + byte_to_Z x) b 0.

(** ** MD5 (RFC 1321), the digest behind [hashlib.md5] *)

Module MD5.

Definition mask32 : Z := 0xffffffff.

Definition add32 (x y : Z) : Z := (x + y) mod 2 ^ 32.

Definition not32 (x : Z) : Z := Z.lxor x mask32.

Definition rotl32 (x c : Z) : Z :=
  Z.lor (Z.land (Z.shiftl x c) mask32) (Z.shiftr x (32 - c)).

Definition K : list Z :=
  [ 0xd76aa478; 0xe8c7b756; 0x242070db; 0xc1bdceee;
    0xf57c0faf; 0x4787c62a; 0xa8304613; 0xfd469501;
    0x698098d8; 0x8b44f7af; 0xffff5bb1; 0x895cd7be;
    0x6b901122; 0xfd987193; 0xa679438e; 0x49b40821;
    0xf61e2562; 0xc040b340; 0x265e5a51; 0xe9b6c7aa;
    0xd62f105d; 0x02441453; 0xd8a1e681; 0xe7d3fbc8;
    0x21e1cde6; 0xc33707d6; 0xf4d50d87; 0x455a14ed;
    0xa9e3e905; 0xfcefa3f8; 0x676f02d9; 0x8d2a4c8a;
    0xfffa3942; 0x8771f681; 0x6d9d6122; 0xfde5380c;
    0xa4beea44; 0x4bdecfa9; 0xf6bb4b60; 0xbebfbc70;
    0x289b7ec6; 0xeaa127fa; 0xd4ef3085; 0x04881d05;
    0xd9d4d039; 0xe6db99e5; 0x1fa27cf8; 0xc4ac5665;
    0xf4292244; 0x432aff97; 0xab9423a7; 0xfc93a039;
    0x655b59c3; 0x8f0ccc92; 0xffeff47d; 0x85845dd1;
    0x6fa87e4f; 0xfe2ce6e0; 0xa3014314; 0x4e0811a1;
    0xf7537e82; 0xbd3af235; 0x2ad7d2bb; 0xeb86d391 ].

Definition shifts : list Z :=
  [ 7; 12; 17; 22; 7; 12; 17; 22; 7; 12; 17; 22; 7; 12; 17; 22;
    5; 9; 14; 20; 5; 9; 14; 20; 5; 9; 14; 20; 5; 9; 14; 20;
    4; 11; 16; 23; 4; 11; 16; 23; 4; 11; 16; 23; 4; 11; 16; 23;
    6; 10; 15; 21; 6; 10; 15; 21; 6; 10; 15; 21; 6; 10; 15; 21 ].

Record state := mkState { sA : Z; sB : Z; sC : Z; sD : Z }.

Definition init : state :=
  mkState 0x67452301 0xefcdab89 0x98badcfe 0x10325476.

(** One of the 64 operations of a block. *)
Definition step (M : list Z) (st : state) (i : nat) : state :=
  let '(mkState a b c d) := st in
  let iz := Z.of_nat i in
  let '(f, g) :=
    if iz <? 16 then (Z.lor (Z.land b c) (Z.land (not32 b) d), iz)
    else if iz <? 32 then
      (Z.lor (Z.land d b) (Z.land (not32 d) c), (5 * iz + 1) mod 16)
    else if iz <? 48 then (Z.lxor (Z.lxor b c) d, (3 * iz + 5) mod 16)
    else (Z.lxor c (Z.lor b (not32 d)), (7 * iz) mod 16) in
  let f' := add32 (add32 (add32 f a) (nth i K 0)) (nth (Z.to_nat g) M 0) in
  mkState d (add32 b (rotl32 f' (nth i shifts 0))) b c.

Definition compress (st : state) (M : list Z) : state :=
  let '(mkState a b c d) := fold_left (step M) (seq 0 64) st in
  mkState (add32 (sA st) a) (add32 (sB st) b)
          (add32 (sC st) c) (add32 (sD st) d).

(** Little-endian 32-bit words of a byte string. *)
Fixpoint words (bs : bytes) : list Z :=
  match bs with
  | b0 :: b1 :: b2 :: b3 :: rest =>
      (byte_to_Z b0 + 256 * byte_to_Z b1 + 65536 * byte_to_Z b2
       + 16777216 * byte_to_Z b3) :: words rest
  | _ => []
  end.

Definition le_bytes (n : nat) (z : Z) : bytes :=
  map (fun i => byte_of_Z (Z.shiftr z (8 * Z.of_nat i))) (seq 0 n).

Definition pad (msg : bytes) : bytes :=
  let len := Z.of_nat (length msg) in
  let zeros := Z.to_nat ((55 - len) mod 64) in
  msg ++ [x80] ++ repeat x00 zeros ++ le_bytes 8 ((8 * len) mod 2 ^ 64).

(** The blocks are consumed sixteen words at a time; a padded message of
    [n] words has [n / 16] blocks, so [n] rounds of the loop suffice. *)
Fixpoint blocks (rounds : nat) (ws : list Z) (st : state) : state :=
  match rounds, ws with
  | S r, _ :: _ => blocks r (skipn 16 ws) (compress st (firstn 16 ws))
  | _, _ => st
  end.

Definition digest (msg : bytes) : bytes :=
  let ws := words (pad msg) in
  let '(mkState a b c d) := blocks (length ws) ws init in
  le_bytes 4 a ++ le_bytes 4 b ++ le_bytes 4 c ++ le_bytes 4 d.

End MD5.

(** ** Python objects as [checksum] sees them

    [checksum] never looks at the identity of an argument, only at what
    [hasattr] and [isinstance] report about it and at the attributes it
    then reads.  An object is therefore modelled by exactly those
    capabilities; several of them may be present on one object, and the
    order of the [if]/[elif] chain decides which one is used. *)

Unset Elimination Schemes.
Inductive pyobj : Type :=
  PyObj
    (attr_checksum : option Z)
      (* [hasattr(arg, '__checksum__')], with the value the accessor returns *)
    (is_none : bool)
      (* [arg is None] *)
    (as_bytes : option bytes)
      (* [isinstance(arg, bytes)], with the content *)
    (as_str : option string)
      (* [isinstance(arg, str)], with the text *)
    (attr_code : option (bytes * option (list pyobj)))
      (* [hasattr(arg, '__code__')]: [__code__.co_code] and [__closure__],
         the latter [None] or the tuple of the cells' contents *)
    (as_partial : option (pyobj * list pyobj * list (string * pyobj)))
      (* [isinstance(arg, functools.partial)]: [func], [args], [keywords]
         (a dict, kept as its items in insertion order) *)
    (as_ndarray : option bytes)
      (* [isinstance(arg, np.ndarray)], with [arg.tobytes()] *)
    (to_str : string).
      (* [str(arg)] *)
Set Elimination Schemes.

(** The objects with a single capability. *)
Definition py_opaque (repr : string) : pyobj :=
  PyObj None false None None None None None repr.

Definition py_none : pyobj :=
  PyObj None true None None None None None "None".

Definition py_bytes (b : bytes) : pyobj :=
  PyObj None false (Some b) None None None None "".

Definition py_str (s : string) : pyobj :=
  PyObj None false None (Some s) None None None s.

Definition py_int (n : Z) : pyobj := py_opaque (str_of_int n).

Definition py_function (co_code : bytes) (closure : option (list pyobj))
  : pyobj :=
  PyObj None false None None (Some (co_code, closure)) None None "".

Definition py_partial (func : pyobj) (args : list pyobj)
    (keywords : list (string * pyobj)) : pyobj :=
  PyObj None false None None None (Some (func, args, keywords)) None "".

Definition py_ndarray (buf : bytes) : pyobj :=
  PyObj None false None None None None (Some buf) "".

(** An object that additionally carries [__checksum__]. *)
Definition with_checksum (cs : Z) (o : pyobj) : pyobj :=
  let '(PyObj _ n b s c p a r) := o in PyObj (Some cs) n b s c p a r.

(** ** [sorted] on strings and dict lookup *)

Fixpoint insert_sorted (k : string) (l : list string) : list string :=
  match l with
  | [] => [k]
  | x :: l' => if String.leb k x then k :: l else x :: insert_sorted k l'
  end.

(** [sorted(keys)]. *)
Definition sorted (l : list string) : list string :=
  fold_right insert_sorted [] l.

(** [d[k]] on the items of a dict. *)
Fixpoint dict_get {A : Type} (k : string) (d : list (string * A))
  : option A :=
  match d with
  | [] => None
  | (k', v) :: d' => if String.eqb k k' then Some v else dict_get k d'
  end.

(** ** checksum.py *)

Definition SALT : Z := 42.

(** The last two statements of [checksum]: the MD5 digest of the
    accumulated bytes, read as a big-endian integer. *)
Definition finalize (bstr : bytes) : Z :=
  int_from_bytes_big (MD5.digest bstr).

(** [str(checksum(x)).encode()], given the bytes [x] appends to the
    accumulator of that inner call. *)
Definition nested (fed : bytes) : bytes :=
  encode (str_of_int (finalize (encode (str_of_int SALT) ++ fed))).

(** What one iteration of the loop of [checksum] appends to [bstr].  The
    digests of the bound keyword values are computed first and picked up
    by name when the loop over the sorted keys reaches them. *)
Fixpoint feed (arg : pyobj) : bytes :=
  match arg with
  | PyObj attr_checksum is_none as_bytes as_str attr_code as_partial
          as_ndarray to_str =>
    match attr_checksum with
    | Some cs => encode (str_of_int cs)
    | None =>
    if is_none then encode "None" else
    match as_bytes with
    | Some b => b
    | None =>
    match as_str with
    | Some s => encode s
    | None =>
    match attr_code with
    | Some (co_code, closure) =>
        co_code ++
        match closure with
        | Some cells => concat (map (fun cell => nested (feed cell)) cells)
        | None => []
        end
    | None =>
    match as_partial with
    | Some (func, args, keywords) =>
        nested (feed func) ++
        concat (map (fun x => nested (feed x)) args) ++
        (let sums := map (fun kv => let '(k, v) := kv in
                                    (k, nested (feed v))) keywords in
         concat (map (fun k => encode k ++
                               match dict_get k sums with
                               | Some t => t
                               | None => []
                               end)
                     (sorted (map fst keywords))))
    | None =>
    match as_ndarray with
    | Some buf => buf
    | None => encode to_str
    end end end end end end
  end.

(** [checksum] applied to the tuple [args] of its arguments. *)
Definition checksum (args : list pyobj) : Z :=
  let bstr := fold_left (fun bstr arg => bstr ++ feed arg) args
                        (encode (str_of_int SALT)) in
  finalize bstr.

(** [version(version_nr, calls)(func)].  A function object is its
    [__name__], what [checksum] can observe of it, and its behaviour.
    The decorator returns [wrapped]: [functools.wraps] copies [__name__]
    and the [__dict__] of [func], which by then holds [__checksum__];
    the code of [wrapped] is the fixed body [return func(args, kwargs)]
    and its only closure cell is [func]. *)
Record pyfunction (A B : Type) : Type := mkFunction {
  fn_name : string;
  fn_object : pyobj;
  fn_call : A -> B
}.
Arguments mkFunction {A B}.
Arguments fn_name {A B}.
Arguments fn_object {A B}.
Arguments fn_call {A B}.

Definition version (wrapped_co_code : bytes)
    (version_nr : pyobj) (calls : list pyobj)
    {A B : Type} (func : pyfunction A B) : pyfunction A B :=
  let cs := checksum (py_str (fn_name func) :: version_nr :: calls) in
  let func' := with_checksum cs (fn_object func) in
  mkFunction (fn_name func)
             (with_checksum cs (py_function wrapped_co_code (Some [func'])))
             (fun args => fn_call func args).

(** [f.__checksum__()], when [f] has the accessor. *)
Definition checksum_accessor (o : pyobj) : option Z :=
  let '(PyObj cs _ _ _ _ _ _ _) := o in cs.

(** ** The decorator on a store of function objects

    The attributes of a function object can be assigned at any time and
    by any code that reaches the object, so what [version] leaves behind
    is followed on a store.  Every object has an identity; the store
    gives the attributes of each object, that is its [__dict__] together
    with the names that [functools.wraps] copies ([__module__],
    [__name__], [__qualname__], [__doc__]), and tells whether the object
    accepts attribute assignments: a function defined by [def] or
    [lambda] does, a built-in function does not.  The code of a function
    is a transformer of the store: a call returns a value and may assign
    attributes of any object. *)

Module Lifecycle.

Definition obj_id : Type := nat.

(** What an attribute holds: the callable [lambda: cs], whose call
    returns the [cs] it has captured (no statement assigns that variable
    after line 17); a [str]; a reference to an object; any other
    value. *)
Inductive attribute : Type :=
| Accessor (cs : Z)
| Text (s : string)
| Ref (o : obj_id)
| Value (v : pyobj).

Record store : Type := mkStore {
  next_id : obj_id;
  attributes : obj_id -> string -> option attribute;
  assignable : obj_id -> bool
}.

Definition getattr (st : store) (o : obj_id) (name : string)
  : option attribute :=
  attributes st o name.

(** [o.name = v]; [None] stands for the [AttributeError] of an object
    that takes no attributes. *)
Definition setattr (st : store) (o : obj_id) (name : string)
    (v : attribute) : option store :=
  if assignable st o then
    Some (mkStore (next_id st)
                  (fun o' name' =>
                     if ((o' =? o)%nat && (name' =? name)%string)%bool
                     then Some v
                     else attributes st o' name')
                  (assignable st))
  else None.

Record function (A B : Type) : Type := mkFunction {
  fn_id : obj_id;
  fn_code : A -> store -> B * store
}.
Arguments mkFunction {A B}.
Arguments fn_id {A B}.
Arguments fn_code {A B}.

Definition call {A B : Type} (f : function A B) (args : A) (st : store)
  : B * store :=
  fn_code f args st.

(** [version(version_nr, calls)(func)], lines 16 to 24, statement by
    statement; [None] stands for an [AttributeError].  Line 17 reads
    [func.__name__] and computes [cs]; line 18 assigns the accessor on
    [func]; lines 20 to 22 create the function object [wrapped], whose
    code is [return func(args, kwargs)], and [functools.wraps] gives it
    the attributes [func] has at that moment and then sets
    [__wrapped__]; line 24 returns it. *)
Definition version (version_nr : pyobj) (calls : list pyobj)
    {A B : Type} (func : function A B) (st : store)
  : option (function A B * store) :=
  match getattr st (fn_id func) "__name__" with
  | Some (Text name) =>
      let cs := checksum (py_str name :: version_nr :: calls) in
      match setattr st (fn_id func) "__checksum__" (Accessor cs) with
      | Some st1 =>
          let wrapped := next_id st1 in
          let st2 :=
            mkStore (S wrapped)
                    (fun o name' =>
                       if (o =? wrapped)%nat then
                         if (name' =? "__wrapped__")%string
                         then Some (Ref (fn_id func))
                         else attributes st1 (fn_id func) name'
                       else attributes st1 o name')
                    (fun o => if (o =? wrapped)%nat then true
                              else assignable st1 o) in
          Some (mkFunction wrapped (fun args st' => call func args st'), st2)
      | None => None
      end
  | _ => None
  end.

(** [f.__checksum__()] in a store: the attribute is looked up at the
    time of the call. *)
Definition checksum_accessor (st : store) (f : obj_id) : option Z :=
  match getattr st f "__checksum__" with
  | Some (Accessor cs) => Some cs
  | _ => None
  end.





End Lifecycle.

(** ** The specification's reading of the fingerprint engine

    The next definitions follow the words of the specification, not the
    code: a tagged kind per descriptor, chosen by the first matching rule
    of a fixed priority list, and the bytes each rule appends. *)

Inductive DescriptorKind : Type :=
| ExplicitFingerprint
| NoneValue
| Bytes
| Text
| NamedFunctionWithClosure
| PartialApplication
| Array
| Opaque.

Definition priority_order : list DescriptorKind :=
  [ ExplicitFingerprint; NoneValue; Bytes; Text;
    NamedFunctionWithClosure; PartialApplication; Array; Opaque ].

Definition is_some {A : Type} (o : option A) : bool :=
  match o with Some _ => true | None => false end.

Definition rule_matches (o : pyobj) (k : DescriptorKind) : bool :=
  let '(PyObj cs none b s code part arr _) := o in
  match k with
  | ExplicitFingerprint => is_some cs
  | NoneValue => none
  | Bytes => is_some b
  | Text => is_some s
  | NamedFunctionWithClosure => is_some code
  | PartialApplication => is_some part
  | Array => is_some arr
  | Opaque => true
  end.

(** First matching rule wins. *)
Definition classify (o : pyobj) : DescriptorKind :=
  match find (rule_matches o) priority_order with
  | Some k => k
  | None => Opaque
  end.

(** The textual form of a recursively computed fingerprint. *)
Definition fingerprint_text (o : pyobj) : bytes :=
  encode (str_of_int (checksum [o])).

Definition rule_bytes (k : DescriptorKind) (o : pyobj) : bytes :=
  let '(PyObj cs none b s code part arr repr) := o in
  match k with
  | ExplicitFingerprint =>
      match cs with Some v => encode (str_of_int v) | None => [] end
  | NoneValue => encode "None"
  | Bytes => match b with Some x => x | None => [] end
  | Text => match s with Some x => encode x | None => [] end
  | NamedFunctionWithClosure =>
      match code with
      | Some (code_id, Some captured) =>
          code_id ++ concat (map fingerprint_text captured)
      | Some (code_id, None) => code_id
      | None => []
      end
  | PartialApplication =>
      match part with
      | Some (func, args, keywords) =>
          fingerprint_text func ++
          concat (map fingerprint_text args) ++
          concat (map (fun name =>
                         encode name ++
                         match dict_get name keywords with
                         | Some v => fingerprint_text v
                         | None => []
                         end)
                      (sorted (map fst keywords)))
      | None => []
      end
  | Array => match arr with Some buf => buf | None => [] end
  | Opaque => encode repr
  end.

(** [fingerprint(descriptors)] as section 4.1 words it. *)
Definition fingerprint (descriptors : list pyobj) : Z :=
  finalize (encode (str_of_int SALT)
            ++ concat (map (fun d => rule_bytes (classify d) d) descriptors)).

(** ** correlation.py: exceptions and the record of frame accesses

    A computation yields the indices it handed to [frames.__getitem__],
    in the order of the calls, and either the exception that ended it or
    its value. *)

Inductive exn : Type :=
| AssertionError
| IndexError
| StopIteration
| ZeroDivisionError
| TypeError.

Definition result (A : Type) : Type := (exn + A)%type.

Definition M (A : Type) : Type := (list Z * result A)%type.

Definition ret {A : Type} (a : A) : M A := ([], inr a).

Definition raise {A : Type} (e : exn) : M A := ([], inl e).

Definition bind {A B : Type} (m : M A) (k : A -> M B) : M B :=
  match m with
  | (log, inl e) => (log, inl e)
  | (log, inr a) => let '(log', r) := k a in (log ++ log', r)
  end.

Definition lift {A : Type} (r : result A) : M A := ([], r).

Notation "x <- m ;; k" := (bind m (fun x => k))
  (at level 61, m at next level, right associativity).

(** A loop that runs [f] on the elements in order and collects the
    values; the first exception ends it. *)
Fixpoint for_each {A B : Type} (f : A -> M B) (l : list A) : M (list B) :=
  match l with
  | [] => ret []
  | a :: l' => b <- f a ;; bs <- for_each f l' ;; ret (b :: bs)
  end.

Definition fetched {A : Type} (m : M A) : list Z := fst m.

Definition outcome {A : Type} (m : M A) : result A := snd m.

(** ** Numbers *)

(** [int(x)] and [astype(int)]: truncation toward zero. *)
Definition Qtrunc (x : Q) : Z := Z.quot (Qnum x) (Zpos (Qden x)).

Definition Qltb (x y : Q) : bool :=
  (Qnum x * Zpos (Qden y) <? Qnum y * Zpos (Qden x))%Z.

Definition Q_of_nat (n : nat) : Q := inject_Z (Z.of_nat n).

(** [np.linspace(start, stop, num=num, endpoint=False, dtype=int)]:
    [step = (stop - start) / num], the samples [i * step + start] for
    [i = 0 .. num - 1], converted to integers. *)
Definition linspace_int (start stop : Q) (num : nat) : list Z :=
  let step := ((stop - start) / Q_of_nat num)%Q in
  map (fun i => Qtrunc (Q_of_nat i * step + start)%Q) (seq 0 num).

Definition Qsum (l : list Q) : Q := fold_right Qplus (0%Q) l.

(** ** correlation, subensemble_correlation

    A frame stream is the list of the frames it produces; the lazy [map]
    a combinator returns is the list of the values it yields. *)

Section Combinators.

Context {Frame V : Type}.

Definition correlation (function : Frame -> Frame -> V)
    (frames : list Frame) : result (list V) :=
  match frames with
  | [] => inl StopIteration
  | start_frame :: iterator =>
      inr (map (fun f => function start_frame f) (start_frame :: iterator))
  end.

(** [getitem f selector] is [f[selector]]. *)
Definition subensemble_correlation {Selector : Type}
    (getitem : Frame -> Selector -> Frame)
    (selector_function : Frame -> Selector)
    (correlation_function :
       (Frame -> Frame -> V) -> list Frame -> result (list V))
    (function : Frame -> Frame -> V) (frames : list Frame)
  : result (list V) :=
  match frames with
  | [] => inl StopIteration
  | start_frame :: iterator =>
      let selector := selector_function start_frame in
      let subensemble :=
        map (fun f => getitem f selector) (start_frame :: iterator) in
      correlation_function function subensemble
  end.

End Combinators.

(** ** shifted_correlation *)

(** The frame source, an external collaborator: [len(frames)],
    [frames[i]] ([None] when the access raises [IndexError]) and, when
    the object has a [_slice], its [start], which for a slice without a
    lower bound is Python's [None]. *)
Record FrameSequence (Frame : Type) : Type := mkFrames {
  frames_len : Z;
  frames_getitem : Z -> option Frame;
  frames_slice_start : option (option Z)
}.
Arguments mkFrames {Frame}.
Arguments frames_len {Frame}.
Arguments frames_getitem {Frame}.
Arguments frames_slice_start {Frame}.

(** The second component of the returned tuple: the matrix
    segments x lags, or its mean over the segments ([nan] when there is
    no segment to average). *)
Inductive correlation_data : Type :=
| Rows (m : list (list Q))
| Mean (v : list Q)
| MeanNaN.

Definition mean_axis0 (rows : list (list Q)) : correlation_data :=
  match rows with
  | [] => MeanNaN
  | r :: _ =>
      Mean (map (fun j => (Qsum (map (fun row => nth j row 0%Q) rows)
                           / Q_of_nat (List.length rows))%Q)
                (seq 0 (List.length r)))
  end.

Section Scheduler.

Context {Frame : Type}.
Variable time : Frame -> Q.

Definition getitem (frames : FrameSequence Frame) (i : Z) : M Frame :=
  ([i], match frames_getitem frames i with
        | Some f => inr f
        | None => inl IndexError
        end).

(** Lines 76-77: the default of [skip].  Both operands of the division
    are evaluated before it: a [start] that is [None] raises [TypeError]
    whatever the length, an integer [start] over the length 0 raises
    [ZeroDivisionError]. *)
Definition effective_skip (frames : FrameSequence Frame) (skip : option Q)
  : result Q :=
  match skip with
  | Some s => inr s
  | None =>
      match frames_slice_start frames with
      | Some (Some start) =>
          if (frames_len frames =? 0)%Z then inl ZeroDivisionError
          else inr (inject_Z start / inject_Z (frames_len frames))%Q
      | Some None => inl TypeError
      | None => inr 0%Q
      end
  end.

Definition start_frames_of (frames : FrameSequence Frame)
    (segments : nat) (window skip : Q) : list Z :=
  let n := inject_Z (frames_len frames) in
  linspace_int (n * skip)%Q (n * (1 - window - skip))%Q segments.

Definition num_frames_of (frames : FrameSequence Frame) (window : Q) : Z :=
  Qtrunc (inject_Z (frames_len frames) * window)%Q.

(** The inner function [correlate].  Line 90 hands the combinator a lazy
    [map], and a frame is fetched when the combinator asks for it.  The
    two combinators of the module, and [list] around their result on
    line 94, consume the whole stream in order before any value is used;
    for them, and only for them, the fetches are those of the loop
    below, and the combinator then sees the list of the fetched frames.
    A combinator that stops early is outside this model. *)
Definition correlate
    (function : Frame -> Frame -> Q)
    (frames : FrameSequence Frame)
    (correlation : (Frame -> Frame -> Q) -> list Frame -> result (list Q))
    (idx : list Z) (start_frame : Z) : M (list Q) :=
  let shifted_idx := map (fun i => (i + start_frame)%Z) idx in
  fs <- for_each (getitem frames) shifted_idx ;;
  lift (correlation function fs).

Definition shifted_correlation
    (function : Frame -> Frame -> Q)
    (frames : FrameSequence Frame)
    (index_distribution : Z -> Z -> list Z)
    (correlation : (Frame -> Frame -> Q) -> list Frame -> result (list Q))
    (segments : nat) (window : Q) (skip : option Q) (average : bool)
  : M (list Q * correlation_data) :=
  skip <- lift (effective_skip frames skip) ;;
  if negb (Qltb (window + skip) 1) then raise AssertionError else
  let start_frames := start_frames_of frames segments window skip in
  let num_frames := num_frames_of frames window in
  let idx := index_distribution 0%Z num_frames in
  rows <- for_each (correlate function frames correlation idx)
                   start_frames ;;
  let data := if average then mean_axis0 rows else Rows rows in
  ts <- for_each (fun i => f <- getitem frames i ;; ret (time f)) idx ;;
  f0 <- getitem frames 0%Z ;;
  ret (map (fun t => (t - time f0)%Q) ts, data).

End Scheduler.

(** ** The cache around shifted_correlation

    Line 36 decorates [shifted_correlation] with [autosave_data], so a
    call enters the cache first and the body of the function second. *)

(** Modelled from the spec: the events of a call through the cache
    gateway.  [autosave_data] is defined in autosave.py, which is not
    among the sources; sections 4.3 and 4.4 of the specification
    describe the gateway as an operation [get_or_compute(key, compute)].
    A call looks its key up, may fetch frames, and may store a
    result. *)
Inductive event : Type :=
| CacheLookup (key : Z)
| FrameAccess (i : Z)
| CacheStore (key : Z).

(** Modelled from the spec: the content of the cache, a stored result
    per key (autosave.py is not among the sources). *)
Definition cache (R : Type) : Type := Z -> option R.

(** Modelled from the spec: [get_or_compute(key, compute)] of section
    4.4, the gateway that [autosave_data] (autosave.py, not among the
    sources) puts around the decorated function.  The key is looked up;
    a hit returns the stored result and the function does not run; on a
    miss the function runs, and its result is stored before it is
    returned; an exception of the function ends the call and nothing is
    stored.  The result is the events in their order, the outcome, and
    the cache afterwards. *)
Definition get_or_compute {R : Type} (key : Z) (compute : M R)
    (c : cache R) : list event * result R * cache R :=
  match c key with
  | Some r => ([CacheLookup key], inr r, c)
  | None =>
      match compute with
      | (log, inr r) =>
          (CacheLookup key :: map FrameAccess log ++ [CacheStore key],
           inr r,
           fun k => if (k =? key)%Z then Some r else c k)
      | (log, inl e) =>
          (CacheLookup key :: map FrameAccess log, inl e, c)
      end
  end.

(** ** Lines 78 to 84 over binary64

    The same arithmetic as [shifted_correlation] above, with the
    rounding of every operation: Python's [float] is the binary64 format
    of IEEE 754, and [len(frames)] is converted exactly when it is below
    2^53. *)

Definition float_of_int (n : Z) : float :=
  PrimFloat.of_uint63 (Uint63.of_Z n).

(** [int(x)] and [astype(int)] on a finite float: truncation toward
    zero.  ([int] raises on an infinity or a NaN: [None]; a sample
    beyond the range of a 64-bit integer is outside this model.) *)
Definition int_of_float (x : float) : option Z :=
  match Prim2SF x with
  | S754_zero _ => Some 0%Z
  | S754_finite s m e =>
      let v := if (0 <=? e)%Z then (Z.pos m * 2 ^ e)%Z
               else (Z.pos m / 2 ^ (- e))%Z in
      Some (if s then (- v)%Z else v)
  | _ => None
  end.

(** Line 78, [window + skip < 1]. *)
Definition guard_binary64 (window skip : float) : bool :=
  PrimFloat.ltb (PrimFloat.add window skip) PrimFloat.one.

(** [np.linspace(start, stop, num=num, endpoint=False, dtype=int)] as
    numpy computes it: [step = (stop - start) / num], the samples
    [i * step + start], or [i / num * (stop - start) + start] when the
    step has underflowed to zero, then the conversion to integers.
    (Recent versions of numpy take the floor before converting; on
    samples that are not negative that is the same integer.) *)
Definition linspace_int_binary64 (start stop : float) (num : nat)
  : list (option Z) :=
  let delta := PrimFloat.sub stop start in
  let div := float_of_int (Z.of_nat num) in
  let step := PrimFloat.div delta div in
  map (fun i =>
         let y := float_of_int (Z.of_nat i) in
         let y := if PrimFloat.eqb step PrimFloat.zero
                  then PrimFloat.mul (PrimFloat.div y div) delta
                  else PrimFloat.mul y step in
         int_of_float (PrimFloat.add y start))
      (seq 0 num).

(** Lines 80-83. *)
Definition start_frames_binary64 (len : Z) (segments : nat)
    (window skip : float) : list (option Z) :=
  let n := float_of_int len in
  linspace_int_binary64
    (PrimFloat.mul n skip)
    (PrimFloat.mul n (PrimFloat.sub (PrimFloat.sub PrimFloat.one window) skip))
    segments.

(** Line 84. *)
Definition num_frames_binary64 (len : Z) (window : float) : option Z :=
  int_of_float (PrimFloat.mul (float_of_int len) window).

(** ** log_indices, over the reals *)

Definition log10 (x : R) : R := (ln x / ln 10)%R.

(** [np.logspace(start, stop, num)]: ten to the power of the [num]
    evenly spaced exponents from [start] to [stop], both included. *)
Definition logspace (start stop : R) (num : nat) : list R :=
  let step := ((stop - start) / INR (num - 1))%R in
  map (fun i => Rpower 10 (INR i * step + start)%R) (seq 0 num).

(** [np.int_(x)]: truncation toward zero. *)
Definition np_int (x : R) : Z :=
  if Rle_dec 0 x then Zfloor x else (- Zfloor (- x))%Z.

Fixpoint insert_unique (x : Z) (l : list Z) : list Z :=
  match l with
  | [] => [x]
  | y :: l' =>
      if (x <? y)%Z then x :: l
      else if (x =? y)%Z then l
      else y :: insert_unique x l'
  end.

(** [np.unique]: the sorted distinct values. *)
Definition unique (l : list Z) : list Z := fold_right insert_unique [] l.

Definition log_indices (first last : Z) (num : nat) : list Z :=
  let ls := logspace 0 (log10 (IZR (last - first + 1))) num in
  unique (map (fun x => (np_int x - 1 + first)%Z) ls).

(** [log_indices] with its default [num=100], as [shifted_correlation]
    calls it. *)
Definition index_distribution_default (first last : Z) : list Z :=
  log_indices first last 100.

(** ** A concrete frame source

    Frames that carry a time and a flat array of coordinates, held in a
    Python list: [l[i]] counts a negative [i] from the end and raises
    [IndexError] outside [-len(l) .. len(l) - 1]. *)

Record CoordinateFrame : Type := mkFrame {
  frame_time : Q;
  coordinates : list Q
}.

(** [function(a, b) = sum(a) - sum(b)]. *)
Definition sum_difference (a b : CoordinateFrame) : Q :=
  (Qsum (coordinates a) - Qsum (coordinates b))%Q.

Definition list_getitem {A : Type} (l : list A) (i : Z) : option A :=
  let n := Z.of_nat (List.length l) in
  if (0 <=? i)%Z then nth_error l (Z.to_nat i)
  else if (- n <=? i)%Z then nth_error l (Z.to_nat (i + n))
  else None.

Definition frames_of_list {A : Type} (l : list A) : FrameSequence A :=
  mkFrames (Z.of_nat (List.length l)) (list_getitem l) None.

(** Two ways to index a frame: the full slice and a boolean mask. *)
Inductive selector : Type :=
| SelectAll
| SelectMask (mask : list bool).

Fixpoint masked {A : Type} (mask : list bool) (l : list A) : list A :=
  match mask, l with
  | true :: mask', x :: l' => x :: masked mask' l'
  | false :: mask', _ :: l' => masked mask' l'
  | _, _ => []
  end.

Definition select (f : CoordinateFrame) (s : selector) : CoordinateFrame :=
  match s with
  | SelectAll => f
  | SelectMask mask => mkFrame (frame_time f) (masked mask (coordinates f))
  end.

Definition example_frames : list CoordinateFrame :=
  [ mkFrame 0 [1; 2; 3];
    mkFrame 1 [2; 2; 5];
    mkFrame 2 [0; 7; 1];
    mkFrame 3 [4; 4; 4];
    mkFrame 4 [9; 0; 2] ]%Q.

(** All the indices from [first] to [last], a linear index
    distribution. *)
Definition linear_indices (first last : Z) : list Z :=
  map (fun i => (first + Z.of_nat i)%Z) (seq 0 (Z.to_nat (last - first + 1))).

(** Eight frames at the times 0 to 7, one coordinate each. *)
Definition eight_frames : list CoordinateFrame :=
  map (fun k => mkFrame (inject_Z k) [inject_Z (k * k)])
      [0; 1; 2; 3; 4; 5; 6; 7]%Z.

(** ** The frame accesses of a call

    The indices a call of [shifted_correlation] hands to
    [frames.__getitem__] when nothing fails: segment by segment the
    shifted lag offsets, then the lag offsets for the times, then 0. *)
Definition accesses (starts idx : list Z) : list Z :=
  concat (map (fun s => map (fun i => (i + s)%Z) idx) starts) ++ idx ++ [0%Z].

Definition accessible {Frame : Type} (frames : FrameSequence Frame) (i : Z)
  : Prop :=
  frames_getitem frames i <> None.

(** A computation follows the access list [l]: either every index of
    [l] is accessible and the computation returns after fetching exactly
    [l], or it ends with [IndexError] at the first index of [l] that is
    not accessible, having fetched [l] up to and including that index. *)
Definition follows {Frame A : Type} (frames : FrameSequence Frame)
    (m : M A) (l : list Z) : Prop :=
  (Forall (accessible frames) l /\ exists a : A, m = (l, inr a))
  \/ (exists (pre : list Z) (i : Z) (post : list Z),
        l = pre ++ i :: post
        /\ Forall (accessible frames) pre
        /\ frames_getitem frames i = None
        /\ m = (pre ++ [i], inl IndexError)).

(** ** numpy arithmetic for the correlation functions

    A coordinate array is the list of its rows.  Frames of one
    trajectory have one shape; for operands of different shapes numpy
    broadcasts or raises, which is outside this model: the elementwise
    difference is then [None]. *)

Definition array2 : Type := list (list Q).

Fixpoint subtract1 (a b : list Q) : option (list Q) :=
  match a, b with
  | [], [] => Some []
  | x :: a', y :: b' =>
      match subtract1 a' b' with
      | Some r => Some ((x - y)%Q :: r)
      | None => None
      end
  | _, _ => None
  end.

Fixpoint subtract2 (a b : array2) : option array2 :=
  match a, b with
  | [], [] => Some []
  | r :: a', s :: b' =>
      match subtract1 r s, subtract2 a' b' with
      | Some x, Some y => Some (x :: y)
      | _, _ => None
      end
  | _, _ => None
  end.

(** A scalar numpy computes: a number, or no number ([nan] for the mean
    of nothing and for 0/0, [inf] for another division by zero). *)
Inductive np_scalar : Type :=
| Value (q : Q)
| NaN.

(** [a.mean()]. *)
Definition np_mean (l : list Q) : np_scalar :=
  match l with
  | [] => NaN
  | _ => Value (Qsum l / Q_of_nat (List.length l))%Q
  end.

(** [(a ** 2).sum(axis=-1)]: per row, the sum of the squares. *)
Definition squared_norms (a : array2) : list Q :=
  map (fun row => Qsum (map (fun v => (v * v)%Q) row)) a.

(** [msd(start, frame)]. *)
Definition msd (start frame : array2) : option np_scalar :=
  match subtract2 start frame with
  | Some vec => Some (np_mean (squared_norms vec))
  | None => None
  end.

(** [non_gaussian(onset, frame)]:
    [3 / 5 * (r_2**2).mean() / r_2.mean()**2 - 1]. *)
Definition non_gaussian (onset frame : array2) : option np_scalar :=
  match subtract2 frame onset with
  | Some vec =>
      let r_2 := squared_norms vec in
      match np_mean (map (fun r => (r * r)%Q) r_2), np_mean r_2 with
      | Value m4, Value m2 =>
          if Qeq_bool (m2 * m2) 0 then Some NaN
          else Some (Value (3 / 5 * m4 / (m2 * m2) - 1)%Q)
      | _, _ => Some NaN
      end
  | None => None
  end.

(** ** utils.py: five_point_stencil *)

(** [l[start:stop]] with Python's rules: a negative index counts from
    the end, and indices are clamped to [0 .. len(l)]. *)
Definition py_slice {A : Type} (l : list A) (start stop : option Z)
  : list A :=
  let n := Z.of_nat (List.length l) in
  let norm i := if (i <? 0)%Z then Z.max 0 (i + n) else Z.min i n in
  let a := match start with Some i => norm i | None => 0%Z end in
  let b := match stop with Some i => norm i | None => n end in
  firstn (Z.to_nat (b - a)) (skipn (Z.to_nat a) l).

Fixpoint zip_with {A B C : Type} (f : A -> B -> C) (a : list A) (b : list B)
  : list C :=
  match a, b with
  | x :: a', y :: b' => f x y :: zip_with f a' b'
  | _, _ => []
  end.

(** A binary operation on one-dimensional arrays: elementwise on equal
    lengths, an array of length one is stretched, and other lengths
    raise [ValueError] ([None]). *)
Definition broadcast1 {A B C : Type} (f : A -> B -> C)
    (a : list A) (b : list B) : option (list C) :=
  if (List.length a =? List.length b)%nat then Some (zip_with f a b)
  else match a, b with
       | [x], _ => Some (map (f x) b)
       | _, [y] => Some (map (fun x => f x y) a)
       | _, _ => None
       end.

(** [x / y] on floats in an array: no exception, no number when [y] is
    zero. *)
Definition np_true_divide (x y : Q) : np_scalar :=
  if Qeq_bool y 0 then NaN else Value (x / y)%Q.

Definition five_point_stencil (xdata ydata : list Q)
  : option (list Q * list np_scalar) :=
  let x_out := py_slice xdata (Some 1%Z) (Some (-1)%Z) in
  match broadcast1 Qplus
          (map Qopp (py_slice ydata (Some 3%Z) None))
          (map (Qmult 8) (py_slice ydata (Some 2%Z) (Some (-1)%Z))) with
  | None => None
  | Some t1 =>
  match broadcast1 Qminus t1
          (map (Qmult 8) (py_slice ydata (Some 1%Z) (Some (-2)%Z))) with
  | None => None
  | Some t2 =>
  match broadcast1 Qplus t2 (py_slice ydata None (Some (-3)%Z)) with
  | None => None
  | Some numerator =>
  match broadcast1 Qminus (py_slice xdata (Some 2%Z) (Some (-1)%Z))
                          (py_slice xdata (Some 1%Z) (Some (-2)%Z)) with
  | None => None
  | Some dx =>
  match broadcast1 np_true_divide numerator (map (Qmult 12) dx) with
  | None => None
  | Some derivative => Some (x_out, derivative)
  end end end end end.


(** * Properties *)

(** ** MD5 test vectors *)

(** The RFC 1321 test suite: the digests of the empty string, of "abc"
    and of "message digest". *)
Example md5_empty :
  int_from_bytes_big (MD5.digest []) = 0xd41d8cd98f00b204e9800998ecf8427e.
Proof. vm_compute. reflexivity. Qed.

Example md5_abc :
  int_from_bytes_big (MD5.digest (encode "abc"))
  = 0x900150983cd24fb0d6963f7d28e17f72.
Proof. vm_compute. reflexivity. Qed.

Example md5_message_digest :
  int_from_bytes_big (MD5.digest (encode "message digest"))
  = 0xf96b697d7cb7938d525a2f31aaf161d0.
Proof. vm_compute. reflexivity. Qed.

(** Messages around the one-block and two-block boundaries. *)
Example md5_block_boundaries :
  map (fun n => int_from_bytes_big (MD5.digest (repeat x78 n)))
      [55%nat; 56%nat; 64%nat; 130%nat]
  = [ 0x04364420e25c512fd958a70738aa8f72;
      0x668a72d5ba17f08e62dabcafad6db14b;
      0xc1bb4f81d892b2d57947682aeb252456;
      0xcfc92f41305ca00c9f9584bf67ae1b54 ].
Proof. vm_compute. reflexivity. Qed.


(** ** The fingerprint engine *)

Section ChecksumFacts.

Lemma fold_left_feed (args : list pyobj) (acc : bytes) :
  fold_left (fun bstr arg => bstr ++ feed arg) args acc
  = acc ++ concat (map feed args).
Proof.
  revert acc; induction args as [|a args IH]; intros acc; simpl.
  - now rewrite app_nil_r.
  - now rewrite IH, app_assoc.
Qed.

Lemma checksum_unfold (args : list pyobj) :
  checksum args
  = finalize (encode (str_of_int SALT) ++ concat (map feed args)).
Proof. unfold checksum. now rewrite fold_left_feed. Qed.

Lemma nested_feed (o : pyobj) : nested (feed o) = fingerprint_text o.
Proof.
  unfold fingerprint_text. rewrite checksum_unfold. simpl.
  now rewrite app_nil_r.
Qed.

Lemma map_nested_feed (l : list pyobj) :
  map (fun x => nested (feed x)) l = map fingerprint_text l.
Proof. apply map_ext; intros; apply nested_feed. Qed.

Lemma dict_get_map {A B : Type} (g : A -> B) (k : string)
    (d : list (string * A)) :
  dict_get k (map (fun kv => let '(k', v) := kv in (k', g v)) d)
  = option_map g (dict_get k d).
Proof.
  induction d as [|[k' v] d IH]; simpl; [reflexivity|].
  destruct (String.eqb k k'); [reflexivity | exact IH].
Qed.

(** The equation of [feed] on a partial object, with the body of the
    loop over the sorted keys as the source has it. *)
Lemma feed_partial (func : pyobj) (args : list pyobj)
    (keywords : list (string * pyobj)) :
  feed (py_partial func args keywords)
  = fingerprint_text func
    ++ concat (map fingerprint_text args)
    ++ concat (map (fun k => encode k ++
                             match dict_get k keywords with
                             | Some v => fingerprint_text v
                             | None => []
                             end)
                   (sorted (map fst keywords))).
Proof.
  unfold py_partial; simpl feed.
  rewrite nested_feed, map_nested_feed.
  do 3 f_equal. apply map_ext; intros k. f_equal.
  rewrite (dict_get_map (fun v => nested (feed v))).
  destruct (dict_get k keywords); simpl; [apply nested_feed | reflexivity].
Qed.

Lemma feed_rule_bytes (o : pyobj) : feed o = rule_bytes (classify o) o.
Proof.
  destruct o as [cs none b s code part arr repr].
  destruct cs as [v|]; [reflexivity|].
  destruct none; [reflexivity|].
  destruct b as [x|]; [reflexivity|].
  destruct s as [x|]; [reflexivity|].
  destruct code as [[co clo]|].
  { destruct clo as [cells|]; cbn.
    - now rewrite map_nested_feed.
    - now rewrite app_nil_r. }
  destruct part as [[[func args] keywords]|].
  { exact (feed_partial func args keywords). }
  destruct arr as [buf|]; reflexivity.
Qed.

Lemma feed_with_checksum (cs : Z) (o : pyobj) :
  feed (with_checksum cs o) = encode (str_of_int cs).
Proof. destruct o; reflexivity. Qed.

Lemma byte_to_Z_range (b : byte) : 0 <= byte_to_Z b < 256.
Proof.
  unfold byte_to_Z. pose proof (Byte.to_N_bounded b). lia.
Qed.

Lemma int_from_bytes_big_range (b : bytes) :
  0 <= int_from_bytes_big b < 256 ^ Z.of_nat (List.length b).
Proof.
  unfold int_from_bytes_big.
  enough (H : forall acc, 0 <= acc ->
            0 <= fold_left (fun a x => a * 256 + byte_to_Z x) b acc
            < (acc + 1) * 256 ^ Z.of_nat (List.length b)).
  { specialize (H 0); lia. }
  induction b as [|x b IH]; intros acc Hacc.
  - simpl. lia.
  - pose proof (byte_to_Z_range x) as Hx.
    cbn [fold_left List.length].
    specialize (IH (acc * 256 + byte_to_Z x) ltac:(lia)).
    rewrite Nat2Z.inj_succ, Z.pow_succ_r by lia.
    split; [lia|].
    eapply Z.lt_le_trans; [apply IH|].
    assert (0 < 256 ^ Z.of_nat (List.length b)) by (apply Z.pow_pos_nonneg; lia).
    nia.
Qed.

Lemma le_bytes_length (n : nat) (z : Z) : List.length (MD5.le_bytes n z) = n.
Proof. unfold MD5.le_bytes. now rewrite length_map, length_seq. Qed.

Lemma digest_length (msg : bytes) : List.length (MD5.digest msg) = 16%nat.
Proof.
  unfold MD5.digest.
  destruct (MD5.blocks _ _ _) as [a b c d].
  now rewrite !length_app, !le_bytes_length.
Qed.

Lemma finalize_range (bstr : bytes) : 0 <= finalize bstr < 2 ^ 128.
Proof.
  unfold finalize.
  pose proof (int_from_bytes_big_range (MD5.digest bstr)) as H.
  rewrite digest_length in H. exact H.
Qed.

End ChecksumFacts.

(** ** [sorted] does not depend on the order of its input *)

Section SortedFacts.

Lemma compare_trans_le (a b c : string) :
  String.compare a b <> Gt -> String.compare b c <> Gt ->
  String.compare a c <> Gt.
Proof.
  revert b c; induction a as [|x a IH]; intros [|y b] [|z c]; simpl;
    try congruence.
  unfold Ascii.compare.
  destruct (N.compare_spec (N_of_ascii x) (N_of_ascii y)) as [Hxy|Hxy|Hxy];
    destruct (N.compare_spec (N_of_ascii y) (N_of_ascii z)) as [Hyz|Hyz|Hyz];
    intros H1 H2; try congruence.
  - rewrite Hxy, Hyz, N.compare_refl. now apply (IH b c).
  - rewrite Hxy. apply N.compare_lt_iff in Hyz. now rewrite Hyz.
  - rewrite <- Hyz. apply N.compare_lt_iff in Hxy. now rewrite Hxy.
  - assert (Hxz : (N_of_ascii x < N_of_ascii z)%N) by lia.
    apply N.compare_lt_iff in Hxz. now rewrite Hxz.
Qed.

Lemma leb_trans (a b c : string) :
  String.leb a b = true -> String.leb b c = true -> String.leb a c = true.
Proof.
  unfold String.leb. intros H1 H2.
  pose proof (compare_trans_le a b c) as H.
  destruct (String.compare a b), (String.compare b c),
    (String.compare a c); try reflexivity; try discriminate;
    exfalso; apply H; congruence.
Qed.

Lemma insert_sorted_comm (a b : string) (l : list string) :
  insert_sorted a (insert_sorted b l) = insert_sorted b (insert_sorted a l).
Proof.
  induction l as [|x l IH]; simpl.
  - destruct (String.leb a b) eqn:Hab, (String.leb b a) eqn:Hba;
      try reflexivity.
    + now rewrite (String.leb_antisym a b Hab Hba).
    + destruct (String.leb_total a b); congruence.
  - destruct (String.leb a x) eqn:Hax, (String.leb b x) eqn:Hbx; simpl;
      rewrite ?Hax, ?Hbx.
    + destruct (String.leb a b) eqn:Hab, (String.leb b a) eqn:Hba;
        try reflexivity.
      * now rewrite (String.leb_antisym a b Hab Hba).
      * destruct (String.leb_total a b); congruence.
    + destruct (String.leb b a) eqn:Hba; [|reflexivity].
      rewrite (leb_trans b a x Hba Hax) in Hbx. discriminate.
    + destruct (String.leb a b) eqn:Hab; [|reflexivity].
      rewrite (leb_trans a b x Hab Hbx) in Hax. discriminate.
    + now rewrite IH.
Qed.

Lemma sorted_Permutation (l1 l2 : list string) :
  Permutation l1 l2 -> sorted l1 = sorted l2.
Proof.
  unfold sorted.
  induction 1 as [|x l1 l2 _ IH|x y l|l1 l2 l3 _ IH1 _ IH2]; simpl.
  - reflexivity.
  - now rewrite IH.
  - apply insert_sorted_comm.
  - now rewrite IH1.
Qed.

Lemma dict_get_Permutation {A : Type} (k : string)
    (d1 d2 : list (string * A)) :
  NoDup (map fst d1) -> Permutation d1 d2 -> dict_get k d1 = dict_get k d2.
Proof.
  intros Hnd Hp; revert Hnd.
  induction Hp as [|[k' v] d1 d2 Hp IH|[k1 v1] [k2 v2] d|d1 d2 d3 Hp1 IH1 Hp2 IH2];
    intros Hnd; simpl.
  - reflexivity.
  - inversion Hnd; subst. destruct (String.eqb k k'); auto.
  - destruct (String.eqb_spec k k1), (String.eqb_spec k k2); try reflexivity.
    subst. simpl in Hnd. inversion Hnd as [|? ? Hin _]; subst.
    exfalso; apply Hin; now left.
  - rewrite IH1 by assumption. apply IH2.
    eapply Permutation_NoDup; [|exact Hnd].
    now apply Permutation_map.
Qed.

End SortedFacts.

(** ** Claims about checksum.py *)

(** C2. [checksum] starts its accumulator with the text of [SALT],
    appends for each argument the bytes of the first matching rule in the
    order ExplicitFingerprint, NoneValue, Bytes, Text,
    NamedFunctionWithClosure, PartialApplication, Array, Opaque, and
    returns the 128-bit digest of the accumulator read as a big-endian
    unsigned integer; an argument with a [__checksum__] accessor
    contributes the text of the accessor's value whatever else it is. *)
Theorem C2_checksum_first_match_priority (args : list pyobj) :
  checksum args
  = int_from_bytes_big
      (MD5.digest (encode (str_of_int SALT) ++ concat (map feed args)))
  /\ checksum args = fingerprint args
  /\ (forall (cs : Z) (o : pyobj),
        classify (with_checksum cs o) = ExplicitFingerprint
        /\ feed (with_checksum cs o) = encode (str_of_int cs))
  /\ 0 <= checksum args < 2 ^ 128.
Proof.
  repeat split.
  - apply checksum_unfold.
  - rewrite checksum_unfold. unfold fingerprint. do 3 f_equal.
    apply map_ext; intros o; apply feed_rule_bytes.
  - destruct o; reflexivity.
  - apply feed_with_checksum.
  - rewrite checksum_unfold. apply finalize_range.
  - rewrite checksum_unfold. apply finalize_range.
Qed.

(** C10. Distinct kinds collide: a text and the bytes of its UTF-8
    encoding have the same checksum, and so have [None] and the text
    "None". *)
Theorem C10_kinds_collide :
  (forall s : string,
      classify (py_str s) = Text
      /\ classify (py_bytes (encode s)) = Bytes
      /\ checksum [py_str s] = checksum [py_bytes (encode s)])
  /\ classify py_none = NoneValue
  /\ classify (py_str "None") = Text
  /\ checksum [py_none] = checksum [py_str "None"].
Proof.
  repeat split.
Qed.

Lemma feed_partial_Permutation (func : pyobj) (args : list pyobj)
    (kw1 kw2 : list (string * pyobj)) :
  NoDup (map fst kw1) -> Permutation kw1 kw2 ->
  feed (py_partial func args kw1) = feed (py_partial func args kw2).
Proof.
  intros Hnd Hp. rewrite !feed_partial.
  rewrite (sorted_Permutation (map fst kw1) (map fst kw2))
    by now apply Permutation_map.
  do 3 f_equal. apply map_ext; intros k.
  now rewrite (dict_get_Permutation k kw1 kw2 Hnd Hp).
Qed.

(** C3. Permuting the keyword arguments of a partial application never
    changes a checksum it takes part in (the keys of the dict are
    distinct and are sorted before hashing), while there is a partial
    application with two distinct positional arguments whose checksum
    changes when the two are swapped. *)
Theorem C3_keywords_sorted_positionals_ordered :
  (forall (pre post : list pyobj) (func : pyobj) (args : list pyobj)
          (kw1 kw2 : list (string * pyobj)),
      NoDup (map fst kw1) -> Permutation kw1 kw2 ->
      checksum (pre ++ py_partial func args kw1 :: post)
      = checksum (pre ++ py_partial func args kw2 :: post))
  /\ (exists (func a b : pyobj) (kw : list (string * pyobj)),
        a <> b
        /\ checksum [py_partial func [a; b] kw]
           <> checksum [py_partial func [b; a] kw]).
Proof.
  split.
  - intros pre post func args kw1 kw2 Hnd Hp.
    rewrite !checksum_unfold, !map_app. cbn [map].
    now rewrite (feed_partial_Permutation func args kw1 kw2 Hnd Hp).
  - exists (py_function [] None), (py_int 1), (py_int 2), [].
    split; [discriminate|].
    vm_compute. discriminate.
Qed.

Lemma C3_witness :
  checksum [py_partial (py_function [] None) [py_int 7]
              [("q"%string, py_int 1); ("box"%string, py_none)]]
  = checksum [py_partial (py_function [] None) [py_int 7]
                [("box"%string, py_none); ("q"%string, py_int 1)]].
Proof.
  apply (proj1 C3_keywords_sorted_positionals_ordered [] []).
  - repeat constructor; simpl; intuition discriminate.
  - apply perm_swap.
Defined.

(** ** The accessor of a decorated function over its calls *)

Section LifecycleFacts.

Context {A B : Type}.



(** The accessor that the decorator leaves on the returned function. *)
Lemma version_accessor (version_nr : pyobj) (calls : list pyobj)
    (func : Lifecycle.function A B) (st : Lifecycle.store) (name : string) :
  Lifecycle.getattr st (Lifecycle.fn_id func) "__name__"
  = Some (Lifecycle.Text name) ->
  Lifecycle.assignable st (Lifecycle.fn_id func) = true ->
  exists (wrapped : Lifecycle.function A B) (st1 : Lifecycle.store),
    Lifecycle.version version_nr calls func st = Some (wrapped, st1)
    /\ Lifecycle.fn_id wrapped = Lifecycle.next_id st
    /\ Lifecycle.fn_code wrapped
       = (fun args st' => Lifecycle.call func args st')
    /\ Lifecycle.getattr st1 (Lifecycle.next_id st) "__checksum__"
       = Some (Lifecycle.Accessor
                 (checksum (py_str name :: version_nr :: calls)))
    /\ Lifecycle.assignable st1 (Lifecycle.next_id st) = true.
Proof.
  intros Hname Hassignable.
  unfold Lifecycle.version, Lifecycle.setattr. rewrite Hname, Hassignable.
  eexists _, _. split; [reflexivity|].
  split; [reflexivity|]. split; [reflexivity|].
  unfold Lifecycle.getattr.
  cbn [Lifecycle.attributes Lifecycle.next_id Lifecycle.assignable].
  rewrite !Nat.eqb_refl. split; reflexivity.
Qed.

(** The value of the accessor in the store is the one that the
    object-level model [version] attaches to the returned function. *)
Lemma version_models_agree (wrapped_co_code : bytes)
    (version_nr : pyobj) (calls : list pyobj)
    (func : Lifecycle.function A B) (st : Lifecycle.store)
    (f : pyfunction A B) :
  Lifecycle.getattr st (Lifecycle.fn_id func) "__name__"
  = Some (Lifecycle.Text (fn_name f)) ->
  Lifecycle.assignable st (Lifecycle.fn_id func) = true ->
  exists (wrapped : Lifecycle.function A B) (st1 : Lifecycle.store),
    Lifecycle.version version_nr calls func st = Some (wrapped, st1)
    /\ Lifecycle.checksum_accessor st1 (Lifecycle.fn_id wrapped)
       = checksum_accessor
           (fn_object (version wrapped_co_code version_nr calls f)).
Proof.
  intros Hname Hassignable.
  destruct (version_accessor version_nr calls func st (fn_name f)
              Hname Hassignable)
    as (wrapped & st1 & Hversion & Hid & _ & Hattr & _).
  exists wrapped, st1. split; [exact Hversion|].
  unfold Lifecycle.checksum_accessor. now rewrite Hid, Hattr.
Qed.


End LifecycleFacts.




(** ** Truncation and comparison of rationals *)

Section NumberFacts.

Lemma Qltb_lt (x y : Q) : Qltb x y = true <-> (x < y)%Q.
Proof. unfold Qltb, Qlt. apply Z.ltb_lt. Qed.

Lemma Qltb_ge (x y : Q) : Qltb x y = false <-> (y <= x)%Q.
Proof. unfold Qltb, Qle. rewrite Z.ltb_ge. reflexivity. Qed.

Lemma Qtrunc_floor (x : Q) : (0 <= x)%Q -> Qtrunc x = Qfloor x.
Proof.
  destruct x as [n d]; unfold Qle, Qtrunc, Qfloor; simpl; intros H.
  apply Z.quot_div_nonneg; lia.
Qed.

Lemma Qtrunc_ceiling (x : Q) : (x <= 0)%Q -> Qtrunc x = Qceiling x.
Proof.
  destruct x as [n d]; unfold Qle, Qtrunc, Qceiling, Qfloor; simpl; intros H.
  rewrite <- (Z.opp_involutive n) at 1.
  rewrite Z.quot_opp_l by lia. f_equal.
  apply Z.quot_div_nonneg; lia.
Qed.

Lemma Qtrunc_le (x y : Q) : (x <= y)%Q -> Qtrunc x <= Qtrunc y.
Proof.
  intros Hxy.
  destruct (Qlt_le_dec x 0) as [Hx|Hx], (Qlt_le_dec y 0) as [Hy|Hy].
  - rewrite !Qtrunc_ceiling by now apply Qlt_le_weak.
    now apply Qceiling_resp_le.
  - rewrite (Qtrunc_ceiling x) by now apply Qlt_le_weak.
    rewrite (Qtrunc_floor y) by assumption.
    transitivity 0.
    + change 0 with (Qceiling 0). apply Qceiling_resp_le.
      now apply Qlt_le_weak.
    + change 0 with (Qfloor 0). now apply Qfloor_resp_le.
  - exfalso. apply (Qlt_irrefl 0).
    apply Qle_lt_trans with y; [|assumption].
    now apply Qle_trans with x.
  - rewrite !Qtrunc_floor by (assumption || now apply Qle_trans with x).
    now apply Qfloor_resp_le.
Qed.

Lemma Qtrunc_comp (x y : Q) : (x == y)%Q -> Qtrunc x = Qtrunc y.
Proof.
  intros H. apply Z.le_antisymm; apply Qtrunc_le; rewrite H; apply Qle_refl.
Qed.

Lemma linspace_int_length (start stop : Q) (num : nat) :
  List.length (linspace_int start stop num) = num.
Proof. unfold linspace_int. now rewrite length_map, length_seq. Qed.

End NumberFacts.

(** ** The monad of frame accesses *)

Lemma bind_inr {A B : Type} (m : M A) (k : A -> M B) (log : list Z) (a : A) :
  m = (log, inr a) ->
  bind m k = (log ++ fetched (k a), outcome (k a)).
Proof. intros ->. unfold bind, fetched, outcome. now destruct (k a). Qed.

Lemma bind_inl {A B : Type} (m : M A) (k : A -> M B) (log : list Z) (e : exn) :
  m = (log, inl e) -> bind m k = (log, inl e).
Proof. now intros ->. Qed.

Lemma bind_outcome_inv {A B : Type} (m : M A) (k : A -> M B) (b : B) :
  outcome (bind m k) = inr b ->
  exists a, outcome m = inr a
            /\ outcome (k a) = inr b
            /\ fetched (bind m k) = fetched m ++ fetched (k a).
Proof.
  destruct m as [log [e|a]]; simpl; [discriminate|].
  intros H. exists a. unfold outcome, fetched in *; simpl.
  destruct (k a) as [log' r]; simpl in *. auto.
Qed.

Section MonadFacts.

Context {A B : Type}.

Lemma for_each_ok (f : A -> M B) (lg : A -> list Z) (g : A -> B)
    (l : list A) :
  (forall a, In a l -> f a = (lg a, inr (g a))) ->
  for_each f l = (concat (map lg l), inr (map g l)).
Proof.
  induction l as [|a l IH]; intros H; simpl; [reflexivity|].
  rewrite (bind_inr _ _ (lg a) (g a)) by (apply H; now left).
  rewrite (bind_inr _ _ (concat (map lg l)) (map g l))
    by (apply IH; intros; apply H; now right).
  simpl. now rewrite app_nil_r.
Qed.

Lemma for_each_inv (f : A -> M B) (l : list A) (bs : list B) :
  outcome (for_each f l) = inr bs ->
  fetched (for_each f l) = concat (map (fun a => fetched (f a)) l)
  /\ Forall2 (fun a b => outcome (f a) = inr b) l bs.
Proof.
  revert bs; induction l as [|a l IH]; intros bs H; simpl in *.
  - unfold outcome in H; simpl in H. injection H as <-. split; constructor.
  - apply bind_outcome_inv in H as [b [Hb [H Hlog]]].
    apply bind_outcome_inv in H as [bs' [Hbs [H Hlog']]].
    unfold outcome in H; simpl in H. injection H as <-.
    destruct (IH bs' Hbs) as [IHlog IHall].
    split.
    + rewrite Hlog, Hlog', IHlog. unfold fetched at 3; simpl.
      now rewrite app_nil_r.
    + now constructor.
Qed.

End MonadFacts.

Section SchedulerFacts.

Context {Frame : Type}.
Variable time : Frame -> Q.
Variable frames : FrameSequence Frame.

Lemma getitem_all (at_ : Z -> Frame) (l : list Z) :
  (forall i, In i l -> frames_getitem frames i = Some (at_ i)) ->
  for_each (getitem frames) l = (l, inr (map at_ l)).
Proof.
  intros H.
  rewrite (for_each_ok _ (fun i => [i]) at_).
  - f_equal. induction l; simpl; [reflexivity | f_equal; apply IHl].
    intros; apply H; now right.
  - intros i Hi. unfold getitem. now rewrite (H i Hi).
Qed.

Lemma getitem_fetched_inv (l : list Z) (fs : list Frame) :
  outcome (for_each (getitem frames) l) = inr fs ->
  fetched (for_each (getitem frames) l) = l.
Proof.
  intros H. apply for_each_inv in H as [-> _].
  induction l; simpl; [reflexivity | now f_equal].
Qed.

End SchedulerFacts.

(** ** Claims about the combinators *)

(** C7. On a non-empty stream [correlation] takes the first frame as
    the fixed reference and yields [function(reference, f)] for every
    frame [f] of the stream, the reference itself first, in the order of
    the stream. *)
Theorem C7_correlation_fixed_reference {Frame V : Type}
    (function : Frame -> Frame -> V) (frames : list Frame) :
  frames <> [] ->
  exists (reference : Frame) (values : list V),
    hd_error frames = Some reference
    /\ correlation function frames = inr values
    /\ values = map (function reference) frames
    /\ hd_error values = Some (function reference reference)
    /\ List.length values = List.length frames
    /\ (forall (i : nat) (f : Frame),
          nth_error frames i = Some f ->
          nth_error values i = Some (function reference f)).
Proof.
  destruct frames as [|reference rest]; [congruence|]. intros _.
  exists reference, (map (function reference) (reference :: rest)).
  repeat split.
  - now rewrite length_map.
  - intros i f Hi. now rewrite nth_error_map, Hi.
Qed.

Lemma C7_witness :
  exists (reference : Z) (values : list Z),
    hd_error [3; 5; 8] = Some reference
    /\ correlation Z.sub [3; 5; 8] = inr values
    /\ values = map (Z.sub reference) [3; 5; 8]
    /\ hd_error values = Some (reference - reference)
    /\ List.length values = 3%nat
    /\ (forall (i : nat) (f : Z),
          nth_error [3; 5; 8] i = Some f ->
          nth_error values i = Some (reference - f)).
Proof.
  apply (C7_correlation_fixed_reference Z.sub [3; 5; 8]). discriminate.
Defined.

(** C9. With a selector function whose selectors pick every element of
    every frame, [subensemble_correlation] around the base combinator
    yields, for every function and every frame stream, exactly what the
    base combinator yields on the same function and frames (and raises
    as it does on the empty stream). *)
Theorem C9_subensemble_full_selector {Frame V Selector : Type}
    (getitem : Frame -> Selector -> Frame)
    (selector_function : Frame -> Selector)
    (function : Frame -> Frame -> V) (frames : list Frame) :
  (forall start f : Frame, getitem f (selector_function start) = f) ->
  subensemble_correlation getitem selector_function correlation
                          function frames
  = correlation function frames.
Proof.
  intros Hfull. destruct frames as [|start_frame iterator]; [reflexivity|].
  unfold subensemble_correlation.
  rewrite (map_ext _ (fun f => f)) by (intros; apply Hfull).
  now rewrite map_id.
Qed.

Lemma C9_witness :
  subensemble_correlation select (fun _ => SelectAll) correlation
                          sum_difference example_frames
  = correlation sum_difference example_frames.
Proof.
  apply (C9_subensemble_full_selector select (fun _ => SelectAll)).
  reflexivity.
Defined.

(** ** Claims about shifted_correlation *)

Lemma bind_lift_inr {A B : Type} (a : A) (k : A -> M B) :
  bind (lift (inr a)) k = k a.
Proof. unfold bind, lift. now destruct (k a). Qed.

(** When the effective [window] and [skip] have [window + skip >= 1],
    the body of [shifted_correlation] ends with the failed assertion at
    once: no frame has been accessed, and neither the index
    distribution, nor the correlation combinator, nor the function has
    had any effect on the outcome. *)
Lemma shifted_correlation_guard {Frame : Type}
    (time : Frame -> Q) (function : Frame -> Frame -> Q)
    (frames : FrameSequence Frame) (index_distribution : Z -> Z -> list Z)
    (correlation : (Frame -> Frame -> Q) -> list Frame -> result (list Q))
    (segments : nat) (window : Q) (skip : option Q) (average : bool)
    (effective : Q) :
  effective_skip frames skip = inr effective ->
  (1 <= window + effective)%Q ->
  shifted_correlation time function frames index_distribution correlation
                      segments window skip average
  = ([], inl AssertionError).
Proof.
  intros Hskip Hguard. unfold shifted_correlation.
  rewrite Hskip, bind_lift_inr.
  apply Qltb_ge in Hguard. now rewrite Hguard.
Qed.

(** A [_slice] whose [start] is [None] ends the call with [TypeError] on
    line 77, before the guard and before any frame access, whatever the
    length of the frames. *)
Lemma shifted_correlation_slice_without_start {Frame : Type}
    (time : Frame -> Q) (function : Frame -> Frame -> Q)
    (frames : FrameSequence Frame) (index_distribution : Z -> Z -> list Z)
    (correlation : (Frame -> Frame -> Q) -> list Frame -> result (list Q))
    (segments : nat) (window : Q) (average : bool) :
  frames_slice_start frames = Some None ->
  shifted_correlation time function frames index_distribution correlation
                      segments window None average
  = ([], inl TypeError).
Proof.
  intros Hslice. unfold shifted_correlation, effective_skip.
  now rewrite Hslice.
Qed.

(** C1, as amended.  When the effective [window] and [skip] have
    [window + skip >= 1], the body of [shifted_correlation] ends with
    the failed assertion (the specification's ConfigurationError) at
    once, before any frame access and with no partial work.  The call
    through the cache gateway has by then looked its key up: on a miss
    the lookup is the only event of the call, the assertion error is
    its outcome, and the cache is left as it was, nothing being stored;
    on a hit the stored result is returned, again without any frame
    access and without a change of the cache. *)
Theorem C1_guard_fails_after_the_cache_lookup {Frame : Type}
    (time : Frame -> Q) (function : Frame -> Frame -> Q)
    (frames : FrameSequence Frame) (index_distribution : Z -> Z -> list Z)
    (correlation : (Frame -> Frame -> Q) -> list Frame -> result (list Q))
    (segments : nat) (window : Q) (skip : option Q) (average : bool)
    (effective : Q) (key : Z) (c : cache (list Q * correlation_data)) :
  effective_skip frames skip = inr effective ->
  (1 <= window + effective)%Q ->
  let call := shifted_correlation time function frames index_distribution
                correlation segments window skip average in
  call = ([], inl AssertionError)
  /\ (c key = None ->
      get_or_compute key call c = ([CacheLookup key], inl AssertionError, c))
  /\ (forall r, c key = Some r ->
      get_or_compute key call c = ([CacheLookup key], inr r, c)).
Proof.
  intros Hskip Hguard call.
  assert (Hcall : call = ([], inl AssertionError))
    by now apply (shifted_correlation_guard _ _ _ _ _ _ _ _ _ effective).
  split; [exact Hcall|]. split.
  - intros Hmiss. unfold get_or_compute. now rewrite Hmiss, Hcall.
  - intros r Hhit. unfold get_or_compute. now rewrite Hhit.
Qed.

Lemma C1_witness :
  let call := shifted_correlation frame_time sum_difference
                (frames_of_list example_frames)
                index_distribution_default correlation
                10 (3 # 5) (Some (1 # 2)) false in
  call = ([], inl AssertionError)
  /\ get_or_compute 7 call (fun _ => None)
     = ([CacheLookup 7], inl AssertionError, fun _ => None).
Proof.
  intros call.
  destruct (C1_guard_fails_after_the_cache_lookup frame_time sum_difference
              (frames_of_list example_frames)
              index_distribution_default correlation
              10 (3 # 5) (Some (1 # 2)) false (1 # 2) 7 (fun _ => None))
    as (Hbody & Hmiss & _).
  - reflexivity.
  - discriminate.
  - split; [exact Hbody | now apply Hmiss].
Defined.

(** The claim as the specification words it fails on the cache: the
    call of C1's example through the gateway ends with the assertion
    error after an interaction with the cache, the lookup of its
    key. *)
Lemma C1_counterexample :
  let call := shifted_correlation frame_time sum_difference
                (frames_of_list example_frames)
                index_distribution_default correlation
                10 (3 # 5) (Some (1 # 2)) false in
  snd (fst (get_or_compute 7 call (fun _ => None))) = inl AssertionError
  /\ fst (fst (get_or_compute 7 call (fun _ => None))) = [CacheLookup 7]
  /\ fst (fst (get_or_compute 7 call (fun _ => None))) <> [].
Proof.
  intros call.
  assert (Hcall : call = ([], inl AssertionError)).
  { apply (shifted_correlation_guard _ _ _ _ _ _ _ _ _ (1 # 2));
      [reflexivity | discriminate]. }
  rewrite Hcall. repeat split. discriminate.
Qed.

(** ** Natural numbers among the rationals *)

Section StartOffsets.

Lemma Q_of_nat_le (i j : nat) : (i <= j)%nat -> (Q_of_nat i <= Q_of_nat j)%Q.
Proof. intros H. unfold Q_of_nat. rewrite <- Zle_Qle. lia. Qed.

Lemma Q_of_nat_lt (i j : nat) : (i < j)%nat -> (Q_of_nat i < Q_of_nat j)%Q.
Proof. intros H. unfold Q_of_nat. rewrite <- Zlt_Qlt. lia. Qed.

Lemma Q_of_nat_nonneg (i : nat) : (0 <= Q_of_nat i)%Q.
Proof. apply (Q_of_nat_le 0 i). lia. Qed.

End StartOffsets.

(** ** The start offsets of a call with a large [skip] *)

(** C6.  A call that the guard accepts, traced on the code: eight
    frames, [window = 0.25], [skip = 0.5], two segments.  Every number
    is a small multiple of a power of two, so binary64 computes what the
    rationals give: the guard passes, [num_frames] is 2 and the start
    offsets are 4 and 3.  They descend, and the second one lies below
    [skip * N = 4], inside the half of the trajectory that [skip] is
    documented to leave out; the call completes and has read frame 3. *)
Theorem C6_start_offsets_descend_into_the_skipped_part :
  let frames := frames_of_list eight_frames in
  let starts := start_frames_of frames 2 (1 # 4) (1 # 2) in
  let call := shifted_correlation frame_time sum_difference frames
                linear_indices correlation 2 (1 # 4) (Some (1 # 2)) false in
  guard_binary64 0.25 0.5 = true
  /\ start_frames_binary64 8 2 0.25 0.5 = [Some 4; Some 3]
  /\ num_frames_binary64 8 0.25 = Some 2
  /\ Qltb ((1 # 4) + (1 # 2)) 1 = true
  /\ starts = [4; 3]
  /\ num_frames_of frames (1 # 4) = 2
  /\ ~ Sorted Z.le starts
  /\ (exists s : Z,
        In s starts
        /\ (inject_Z s < inject_Z (frames_len frames) * (1 # 2))%Q)
  /\ fetched call = [4; 5; 6; 3; 4; 5; 0; 1; 2; 0]
  /\ exists v, outcome call = inr v.
Proof.
  intros frames starts call.
  split; [vm_compute; reflexivity|].
  split; [vm_compute; reflexivity|].
  split; [vm_compute; reflexivity|].
  split; [reflexivity|].
  split; [reflexivity|].
  split; [reflexivity|].
  split.
  { intros H. change (Sorted Z.le [4; 3]) in H.
    inversion H as [|? ? _ Hhd]; subst. inversion Hhd; subst. lia. }
  split.
  { exists 3. split; [right; left; reflexivity | reflexivity]. }
  split; [vm_compute; reflexivity|].
  eexists. vm_compute. reflexivity.
Qed.

(** Where rounding shows.  With a hundred frames and [window] the float
    nearest to 0.29, the product of line 84 is rounded to the float
    below 29 and [num_frames] is 28, where the exact product of 100 and
    29/100 gives 29.  The rational model stands for the code on the
    inputs whose products and sums binary64 represents exactly. *)
Remark num_frames_rounds_below_the_exact_product :
  num_frames_binary64 100 0x1.28f5c28f5c28fp-2 = Some 28
  /\ num_frames_of (mkFrames 100 (fun _ : Z => @None unit) None) (29 # 100)
     = 29.
Proof. split; [vm_compute; reflexivity | reflexivity]. Qed.

(** The guard rounds as well: with [window] the float below 1 and
    [skip = 2^-54] the exact sum is below 1, and the binary64 sum is
    1. *)
Remark guard_rounds_up_to_one :
  guard_binary64 0x1.fffffffffffffp-1 0x1p-54 = false
  /\ Qltb ((9007199254740991 # 9007199254740992)
           + (1 # 18014398509481984)) 1 = true.
Proof. split; [vm_compute; reflexivity | reflexivity]. Qed.

(** ** [np.unique] *)

Section UniqueFacts.

Lemma insert_unique_In (x y : Z) (l : list Z) :
  In x (insert_unique y l) <-> x = y \/ In x l.
Proof.
  induction l as [|z l IH]; simpl.
  - intuition.
  - destruct (Z.ltb_spec y z); [simpl; intuition|].
    destruct (Z.eqb_spec y z); simpl; [subst; intuition|].
    rewrite IH. intuition.
Qed.

Lemma unique_In (x : Z) (l : list Z) : In x (unique l) <-> In x l.
Proof.
  unfold unique. induction l as [|y l IH]; simpl; [reflexivity|].
  rewrite insert_unique_In, IH. intuition.
Qed.

Lemma insert_unique_sorted (y : Z) (l : list Z) :
  StronglySorted Z.lt l -> StronglySorted Z.lt (insert_unique y l).
Proof.
  induction 1 as [|z l Hs IH Hall]; simpl.
  - repeat constructor.
  - destruct (Z.ltb_spec y z).
    + constructor; [now constructor|].
      constructor; [assumption|].
      eapply Forall_impl; [|exact Hall]. simpl; intros; lia.
    + destruct (Z.eqb_spec y z); [now constructor|].
      constructor; [assumption|].
      apply Forall_forall. intros x Hx.
      apply insert_unique_In in Hx as [->|Hx]; [lia|].
      rewrite Forall_forall in Hall. now apply Hall.
Qed.

Lemma unique_sorted (l : list Z) : StronglySorted Z.lt (unique l).
Proof.
  unfold unique. induction l; simpl;
    [constructor | now apply insert_unique_sorted].
Qed.

Lemma sorted_lt_NoDup (l : list Z) : StronglySorted Z.lt l -> NoDup l.
Proof.
  induction 1 as [|z l _ IH Hall]; constructor; [|assumption].
  intros Hin. rewrite Forall_forall in Hall.
  specialize (Hall z Hin). lia.
Qed.

Lemma sorted_lt_hd (m : Z) (l : list Z) :
  StronglySorted Z.lt l -> In m l -> (forall x, In x l -> m <= x) ->
  hd_error l = Some m.
Proof.
  intros Hs Hin Hmin. destruct l as [|z l]; [contradiction|].
  simpl. f_equal. inversion Hs as [|? ? _ Hall]; subst.
  rewrite Forall_forall in Hall.
  destruct Hin as [->|Hin]; [reflexivity|].
  specialize (Hall m Hin). specialize (Hmin z (or_introl eq_refl)). lia.
Qed.

Lemma last_In {A : Type} (l : list A) (d : A) : l <> [] -> In (last l d) l.
Proof.
  induction l as [|x l IH]; [congruence|]. intros _.
  destruct l as [|y l]; [now left|].
  right. apply IH. discriminate.
Qed.

End UniqueFacts.

(** ** The samples of [logspace] *)

Section LogspaceFacts.

Local Open Scope R_scope.

Lemma ln_10_pos : 0 < ln 10.
Proof. rewrite <- ln_1. apply ln_increasing; Lra.lra. Qed.

Lemma log10_nonneg (x : R) : 1 <= x -> 0 <= log10 x.
Proof.
  intros Hx. unfold log10.
  assert (0 <= ln x).
  { destruct Hx as [Hx|<-]; [|rewrite ln_1; Lra.lra].
    rewrite <- ln_1. left. apply ln_increasing; Lra.lra. }
  apply Rmult_le_pos; [assumption|].
  left. apply Rinv_0_lt_compat, ln_10_pos.
Qed.

Lemma Rpower_10_log10 (x : R) : 0 < x -> Rpower 10 (log10 x) = x.
Proof.
  intros Hx. unfold Rpower, log10.
  replace (ln x / ln 10 * ln 10) with (ln x).
  - now apply exp_ln.
  - field. pose proof ln_10_pos. Lra.lra.
Qed.

Lemma exponent_range (stop : R) (num i : nat) :
  0 <= stop -> (i < num)%nat ->
  0 <= INR i * ((stop - 0) / INR (num - 1)) + 0 <= stop.
Proof.
  intros Hstop Hi.
  destruct (Nat.eq_dec (num - 1) 0) as [E|E].
  - assert (i = 0%nat) by lia. subst i. simpl. Lra.lra.
  - assert (Hd : 0 < INR (num - 1)) by (apply lt_0_INR; lia).
    assert (Hle : INR i <= INR (num - 1)) by (apply le_INR; lia).
    pose proof (pos_INR i) as Hi0.
    set (d := INR (num - 1)) in *. set (x := INR i) in *.
    assert (Hq : (stop - 0) / d * d = stop) by (field; Lra.lra).
    assert (Hq0 : 0 <= (stop - 0) / d).
    { apply Rmult_le_pos; [Lra.lra|]. left. now apply Rinv_0_lt_compat. }
    split; [Lra.nra | Lra.nra].
Qed.

Lemma logspace_range (x : R) (num : nat) (y : R) :
  1 <= x -> In y (logspace 0 (log10 x) num) -> 1 <= y <= x.
Proof.
  intros Hx Hy. unfold logspace in Hy.
  apply in_map_iff in Hy as [i [<- Hi]]. apply in_seq in Hi.
  destruct (exponent_range (log10 x) num i (log10_nonneg x Hx) ltac:(lia))
    as [Hlo Hhi].
  split.
  - rewrite <- (Rpower_O 10) by Lra.lra. apply Rle_Rpower; Lra.lra.
  - rewrite <- (Rpower_10_log10 x) at 2 by Lra.lra.
    apply Rle_Rpower; Lra.lra.
Qed.

Lemma logspace_first (stop : R) (num : nat) :
  (0 < num)%nat -> In 1 (logspace 0 stop num).
Proof.
  intros Hnum. unfold logspace. apply in_map_iff. exists 0%nat. split.
  - simpl. rewrite Rmult_0_l, Rplus_0_l. apply Rpower_O. Lra.lra.
  - apply in_seq. lia.
Qed.

Lemma np_int_range (x : R) (hi : Z) :
  1 <= x <= IZR hi -> (1 <= np_int x <= hi)%Z.
Proof.
  intros [Hlo Hhi]. unfold np_int.
  destruct (Rle_dec 0 x) as [_|Hneg]; [|exfalso; apply Hneg; Lra.lra].
  split.
  - apply Zfloor_lub. simpl. Lra.lra.
  - apply le_IZR. pose proof (Zfloor_bound x). Lra.lra.
Qed.

End LogspaceFacts.

Section LogIndicesFacts.

Lemma log_indices_range (first last : Z) (num : nat) (i : Z) :
  first <= last -> In i (log_indices first last num) -> first <= i <= last.
Proof.
  intros Hfl Hi. unfold log_indices in Hi.
  apply unique_In, in_map_iff in Hi as [y [<- Hy]].
  apply logspace_range in Hy; [|apply (IZR_le 1); lia].
  apply np_int_range in Hy. lia.
Qed.

Lemma log_indices_first (first last : Z) (num : nat) :
  first <= last -> (0 < num)%nat -> In first (log_indices first last num).
Proof.
  intros Hfl Hnum. unfold log_indices.
  apply unique_In, in_map_iff. exists 1%R. split.
  - assert (H : np_int 1 = 1).
    { pose proof (np_int_range 1 1) as H.
      assert (1 <= np_int 1 <= 1) by (apply H; split; apply Rle_refl). lia. }
    rewrite H. lia.
  - now apply logspace_first.
Qed.

Lemma log_indices_sorted (first last : Z) (num : nat) :
  StronglySorted Z.lt (log_indices first last num).
Proof. apply unique_sorted. Qed.

Lemma log_indices_hd (first last : Z) (num : nat) :
  first <= last -> (0 < num)%nat ->
  hd_error (log_indices first last num) = Some first.
Proof.
  intros Hfl Hnum. apply sorted_lt_hd.
  - apply log_indices_sorted.
  - now apply log_indices_first.
  - intros x Hx. now apply log_indices_range in Hx.
Qed.

End LogIndicesFacts.

(** C5. [log_indices(0, 99)] with the default [num] is strictly
    increasing, hence free of duplicates, starts with 0 and ends at most
    at 99; and for every [num_frames >= 0], [log_indices(0, num_frames)]
    contains 0 and stays within 0 .. [num_frames]. *)
Theorem C5_log_indices_default :
  (let l := index_distribution_default 0 99 in
   StronglySorted Z.lt l
   /\ NoDup l
   /\ hd_error l = Some 0
   /\ List.last l 0 <= 99)
  /\ (forall num_frames : Z,
        0 <= num_frames ->
        let l := index_distribution_default 0 num_frames in
        StronglySorted Z.lt l
        /\ In 0 l
        /\ (forall i : Z, In i l -> 0 <= i <= num_frames)).
Proof.
  unfold index_distribution_default. split.
  - cbv zeta.
    pose proof (log_indices_hd 0 99 100 ltac:(lia) ltac:(lia)) as Hhd.
    split; [apply log_indices_sorted|].
    split; [apply sorted_lt_NoDup, log_indices_sorted|].
    split; [exact Hhd|].
    assert (Hne : log_indices 0 99 100 <> [])
      by (intros E; rewrite E in Hhd; discriminate).
    pose proof (last_In (log_indices 0 99 100) 0 Hne) as Hin.
    apply log_indices_range in Hin; lia.
  - intros num_frames Hnum. cbv zeta.
    split; [apply log_indices_sorted|].
    split; [apply log_indices_first; lia|].
    intros i Hi. apply log_indices_range in Hi; lia.
Qed.

Lemma C5_witness :
  let l := index_distribution_default 0 7 in
  StronglySorted Z.lt l
  /\ In 0 l
  /\ (forall i : Z, In i l -> 0 <= i <= 7).
Proof.
  apply (proj2 C5_log_indices_default 7). lia.
Defined.

(** ** Completed calls with the default combinator *)

Section CompletedCalls.

Context {Frame : Type}.
Variable time : Frame -> Q.
Variable function : Frame -> Frame -> Q.
Variable frames : FrameSequence Frame.
Variable at_ : Z -> Frame.

Lemma correlate_ok (i0 : Z) (rest : list Z) (s : Z) :
  (forall i, In i (i0 :: rest) ->
             frames_getitem frames (i + s) = Some (at_ (i + s))) ->
  correlate function frames correlation (i0 :: rest) s
  = (map (fun i => i + s) (i0 :: rest),
     inr (map (fun i => function (at_ (i0 + s)) (at_ (i + s)))
              (i0 :: rest))).
Proof.
  intros H. unfold correlate.
  rewrite (bind_inr _ _ (map (fun i => i + s) (i0 :: rest))
                    (map at_ (map (fun i => i + s) (i0 :: rest)))).
  - unfold fetched, outcome, lift. cbn [fst snd correlation].
    rewrite app_nil_r. cbn [map correlation]. rewrite !map_map.
    reflexivity.
  - apply getitem_all. intros j Hj.
    apply in_map_iff in Hj as [i [<- Hi]]. now apply H.
Qed.

Lemma shifted_correlation_ok
    (index_distribution : Z -> Z -> list Z)
    (segments : nat) (window : Q) (skip : option Q)
    (effective : Q) (i0 : Z) (rest : list Z) :
  effective_skip frames skip = inr effective ->
  (window + effective < 1)%Q ->
  let starts := start_frames_of frames segments window effective in
  let idx := index_distribution 0 (num_frames_of frames window) in
  idx = i0 :: rest ->
  (forall s i, In s starts -> In i idx ->
               frames_getitem frames (i + s) = Some (at_ (i + s))) ->
  (forall i, In i idx -> frames_getitem frames i = Some (at_ i)) ->
  frames_getitem frames 0 = Some (at_ 0) ->
  shifted_correlation time function frames index_distribution correlation
                      segments window skip false
  = (concat (map (fun s => map (fun i => i + s) idx) starts) ++ idx ++ [0],
     inr (map (fun i => (time (at_ i) - time (at_ 0))%Q) idx,
          Rows (map (fun s =>
                       map (fun i => function (at_ (i0 + s)) (at_ (i + s)))
                           idx) starts))).
Proof.
  intros Hskip Hguard starts idx Hidx Hseg Hlag H0.
  unfold shifted_correlation.
  rewrite Hskip, bind_lift_inr.
  apply Qltb_lt in Hguard. rewrite Hguard. cbn [negb]. cbv zeta.
  fold starts. fold idx.
  rewrite (bind_inr _ _
             (concat (map (fun s => map (fun i => i + s) idx) starts))
             (map (fun s => map (fun i => function (at_ (i0 + s))
                                                   (at_ (i + s))) idx)
                  starts)).
  2:{ apply for_each_ok. intros s Hs. rewrite Hidx.
      apply correlate_ok. intros i Hi. apply Hseg; [assumption|].
      now rewrite Hidx. }
  rewrite (bind_inr _ _ idx (map (fun i => time (at_ i)) idx)).
  2:{ rewrite (for_each_ok _ (fun i => [i]) (fun i => time (at_ i))).
      - f_equal. clear. induction idx; simpl; [reflexivity | now f_equal].
      - intros i Hi. unfold getitem, bind, ret. now rewrite (Hlag i Hi). }
  unfold getitem, bind, ret, fetched, outcome; simpl.
  rewrite H0. cbn [snd]. rewrite map_map. reflexivity.
Qed.

End CompletedCalls.

(** ** One segment over a list of frames

    From here on [log_indices] is used through the lemmas above only. *)

Opaque log_indices.

Section SingleSegment.

Lemma list_getitem_nth {A : Type} (l : list A) (d : A) (i : Z) :
  0 <= i < Z.of_nat (List.length l) ->
  list_getitem l i = Some (nth (Z.to_nat i) l d).
Proof.
  intros H. unfold list_getitem.
  destruct (Z.leb_spec 0 i); [|lia].
  apply nth_error_nth'. lia.
Qed.

Lemma num_frames_range (n : Z) (window : Q) :
  0 < n -> (0 <= window)%Q -> (window < 1)%Q ->
  0 <= Qtrunc (inject_Z n * window) < n.
Proof.
  intros Hn Hw0 Hw1.
  assert (Hn' : (0 < inject_Z n)%Q).
  { change 0%Q with (inject_Z 0). rewrite <- Zlt_Qlt. lia. }
  assert (Hx0 : (0 <= inject_Z n * window)%Q).
  { apply Qmult_le_0_compat; [now apply Qlt_le_weak | assumption]. }
  assert (Hx1 : (inject_Z n * window < inject_Z n)%Q).
  { rewrite <- (Qmult_1_r (inject_Z n)) at 2.
    now apply Qmult_lt_l. }
  rewrite Qtrunc_floor by assumption.
  split.
  - change 0 with (Qfloor 0). now apply Qfloor_resp_le.
  - rewrite Zlt_Qlt.
    eapply Qle_lt_trans; [apply Qfloor_le | exact Hx1].
Qed.

Lemma single_segment_start {Frame : Type} (frames : FrameSequence Frame)
    (window : Q) :
  start_frames_of frames 1 window 0 = [0].
Proof.
  unfold start_frames_of, linspace_int. cbn [seq map]. f_equal.
  transitivity (Qtrunc 0); [|reflexivity]. apply Qtrunc_comp.
  unfold Q_of_nat. change (inject_Z (Z.of_nat 0)) with 0%Q. ring.
Qed.

End SingleSegment.

(** C4, as amended.  For five frames with times 0, 1, 2, 3, 4 and
    [function(a, b) = sum(a) - sum(b)], with [segments=1] and [skip=0]:
    the call with [window=1.0] fails the assertion [window + skip < 1];
    for every [window] with [0 <= window < 1] the call returns, the lag
    offsets being [idx = log_indices(0, int(5 * window))]: the lag times
    are [frames[i].time - frames[0].time] for [i] in [idx], in that
    order, which is [i] itself; the single row of values is
    [function(frames[0], frames[i])] for [i] in [idx], in that order;
    and its zero-lag entry, the first, is 0. *)
Theorem C4_single_full_segment
    (frames : list CoordinateFrame) (d : CoordinateFrame) (window : Q) :
  List.length frames = 5%nat ->
  (forall i : nat, (i < 5)%nat ->
                   (frame_time (nth i frames d) == Q_of_nat i)%Q) ->
  (0 <= window)%Q -> (window < 1)%Q ->
  let call w :=
    shifted_correlation frame_time sum_difference (frames_of_list frames)
                        index_distribution_default correlation
                        1 w (Some 0%Q) false in
  let idx := index_distribution_default 0 (Qtrunc (5 * window)) in
  let frame i := nth (Z.to_nat i) frames d in
  call 1%Q = ([], inl AssertionError)
  /\ exists (times values : list Q),
       call window = (idx ++ idx ++ [0], inr (times, Rows [values]))
       /\ times
          = map (fun i => (frame_time (frame i) - frame_time (frame 0%Z))%Q) idx
       /\ Forall2 Qeq times (map inject_Z idx)
       /\ values = map (fun i => sum_difference (frame 0) (frame i)) idx
       /\ exists (zero_lag : Q) (others : list Q),
            values = zero_lag :: others /\ (zero_lag == 0)%Q.
Proof.
  intros Hlen Htime Hw0 Hw1 call idx frame.
  split; [reflexivity|].
  assert (Hnum : num_frames_of (frames_of_list frames) window
                 = Qtrunc (5 * window)).
  { unfold num_frames_of, frames_of_list. cbn [frames_len].
    now rewrite Hlen. }
  pose proof (num_frames_range 5 window ltac:(lia) Hw0 Hw1) as Hnf.
  change (inject_Z 5) with 5%Q in Hnf.
  assert (Hrange : forall i, In i idx -> 0 <= i < 5).
  { intros i Hi. apply log_indices_range in Hi; lia. }
  assert (Hget : forall i, In i idx ->
                   frames_getitem (frames_of_list frames) i = Some (frame i)).
  { intros i Hi. apply list_getitem_nth. rewrite Hlen.
    specialize (Hrange i Hi). lia. }
  pose proof (log_indices_hd 0 (Qtrunc (5 * window)) 100
                ltac:(lia) ltac:(lia)) as Hhd.
  fold (index_distribution_default 0 (Qtrunc (5 * window))) in Hhd.
  fold idx in Hhd.
  assert (Eidx : idx = 0 :: tl idx).
  { destruct idx as [|i0 rest]; [discriminate|]. now injection Hhd as ->. }
  pose proof (shifted_correlation_ok frame_time sum_difference
                (frames_of_list frames) frame index_distribution_default
                1 window (Some 0%Q) 0%Q 0 (tl idx)) as Hcall.
  cbv zeta in Hcall.
  rewrite Hnum, single_segment_start in Hcall.
  fold idx in Hcall. fold (call window) in Hcall.
  specialize (Hcall eq_refl ltac:(lra) Eidx).
  assert (Hseg : forall s i : Z, In s [0] -> In i idx ->
            frames_getitem (frames_of_list frames) (i + s)
            = Some (frame (i + s))).
  { intros s i [<-|[]] Hi. rewrite Z.add_0_r. now apply Hget. }
  specialize (Hcall Hseg Hget
                (list_getitem_nth frames d 0 ltac:(rewrite Hlen; lia))).
  clearbody idx.
  assert (Hshift : map (fun i => i + 0) idx = idx).
  { rewrite (map_ext _ (fun i => i)) by (intros; apply Z.add_0_r).
    apply map_id. }
  cbn [map concat] in Hcall. rewrite Hshift, app_nil_r in Hcall.
  rewrite (map_ext (fun i => sum_difference (frame (0 + 0)) (frame (i + 0)))
                   (fun i => sum_difference (frame 0) (frame i))) in Hcall
    by (intros; now rewrite !Z.add_0_r).
  clear Eidx Hseg.
  eexists _, _. split; [exact Hcall|].
  split; [reflexivity|].
  split.
  { clear Hcall Hget Hhd Hshift.
    induction idx as [|i idx IH]; cbn [map]; constructor.
    - specialize (Hrange i (or_introl eq_refl)).
      unfold frame. rewrite (Htime (Z.to_nat i)) by lia.
      rewrite (Htime (Z.to_nat 0)) by (simpl; lia).
      unfold Q_of_nat. rewrite Z2Nat.id by lia. simpl Z.to_nat.
      simpl inject_Z at 2. ring.
    - apply IH. intros j Hj. apply Hrange. now right. }
  split; [reflexivity|].
  destruct idx as [|i0 rest]; [discriminate|].
  injection Hhd as ->.
  eexists _, _. split; [reflexivity|].
  unfold sum_difference. ring.
Qed.

Lemma C4_witness :
  let idx := index_distribution_default 0 2 in
  exists (times values : list Q),
    shifted_correlation frame_time sum_difference
                        (frames_of_list example_frames)
                        index_distribution_default correlation
                        1 (1 # 2) (Some 0%Q) false
    = (idx ++ idx ++ [0], inr (times, Rows [values]))
    /\ Forall2 Qeq times (map inject_Z idx)
    /\ exists (zero_lag : Q) (others : list Q),
         values = zero_lag :: others /\ (zero_lag == 0)%Q.
Proof.
  destruct (C4_single_full_segment example_frames (mkFrame 0 []) (1 # 2))
    as [_ (times & values & Hcall & _ & Htimes & _ & Hzero)].
  - reflexivity.
  - intros i Hi. do 5 (destruct i as [|i]; [reflexivity|]). lia.
  - discriminate.
  - reflexivity.
  - exists times, values. split; [exact Hcall|]. split; [exact Htimes|].
    exact Hzero.
Defined.

(** The call the specification describes, [window=1.0] with [skip=0]
    over five frames with times 0 to 4, does not return a result: the
    assertion [window + skip < 1] fails. *)
Lemma C4_counterexample :
  List.length example_frames = 5%nat
  /\ map frame_time example_frames = [0; 1; 2; 3; 4]%Q
  /\ shifted_correlation frame_time sum_difference
                         (frames_of_list example_frames)
                         index_distribution_default correlation
                         1 1 (Some 0%Q) false
     = ([], inl AssertionError)
  /\ ~ exists (times : list Q) (data : correlation_data),
         outcome (shifted_correlation frame_time sum_difference
                    (frames_of_list example_frames)
                    index_distribution_default correlation
                    1 1 (Some 0%Q) false)
         = inr (times, data).
Proof.
  split; [reflexivity|]. split; [reflexivity|]. split; [reflexivity|].
  intros (times & data & H). discriminate H.
Qed.

(** * Further properties of the code *)

(** ** checksum.py: what the accumulator cannot tell apart *)

Lemma encode_append (a b : string) : encode (a ++ b) = encode a ++ encode b.
Proof.
  unfold encode, list_byte_of_string.
  induction a as [|c a IH]; simpl; [reflexivity | now rewrite IH].
Qed.

(** X1. [checksum] puts nothing between the bytes of consecutive
    arguments: two text (or bytes) arguments in a row give the checksum
    of the one argument that is their concatenation, whatever precedes
    and follows them. *)
Theorem X1_checksum_concatenates_arguments
    (pre post : list pyobj) (a b : string) (x y : bytes) :
  checksum (pre ++ py_str a :: py_str b :: post)
  = checksum (pre ++ py_str (a ++ b) :: post)
  /\ checksum (pre ++ py_bytes x :: py_bytes y :: post)
     = checksum (pre ++ py_bytes (x ++ y) :: post).
Proof.
  rewrite !checksum_unfold, !map_app. cbn [map concat].
  split.
  - rewrite !concat_app. cbn [concat feed py_str].
    now rewrite encode_append, <- !app_assoc.
  - rewrite !concat_app. cbn [concat feed py_bytes].
    now rewrite <- !app_assoc.
Qed.

(** X2. The decorator [version] hashes the name and the version number
    back to back: two functions whose names followed by the decimal
    version numbers spell the same text get the same checksum accessor
    value, for the same dependencies. *)
Theorem X2_version_name_and_number_run_together
    (code1 code2 : bytes) (calls : list pyobj) (v1 v2 : Z)
    (A B : Type) (f1 f2 : pyfunction A B) :
  (fn_name f1 ++ str_of_int v1 = fn_name f2 ++ str_of_int v2)%string ->
  checksum_accessor (fn_object (version code1 (py_int v1) calls f1))
  = checksum_accessor (fn_object (version code2 (py_int v2) calls f2)).
Proof.
  intros H. unfold version. cbn [fn_object with_checksum py_function
                                  checksum_accessor].
  f_equal. rewrite !checksum_unfold. cbn [map concat feed py_str py_int
                                            py_opaque].
  rewrite !app_assoc. do 2 f_equal. rewrite <- !app_assoc. f_equal.
  now rewrite <- !encode_append, H.
Qed.

Lemma X2_witness :
  checksum_accessor
    (fn_object (version [] (py_int 2) []
                        (mkFunction "isf1" (py_function [x64] None)
                                    (fun n : nat => n))))
  = checksum_accessor
      (fn_object (version [] (py_int 12) []
                          (mkFunction "isf" (py_function [x53] None)
                                      (fun n : nat => S n)))).
Proof.
  apply (X2_version_name_and_number_run_together [] [] [] 2 12).
  reflexivity.
Defined.

(** X3. A versioned function enters a checksum through its accessor
    only: two functions of the same name decorated with the same version
    and dependencies are interchangeable in every checksum, also as the
    function of a partial application, however their code and closures
    differ. *)
Theorem X3_version_hides_the_code
    (code1 code2 : bytes) (version_nr : pyobj) (calls : list pyobj)
    (A B : Type) (f1 f2 : pyfunction A B)
    (pre post args : list pyobj) (keywords : list (string * pyobj)) :
  fn_name f1 = fn_name f2 ->
  let w1 := fn_object (version code1 version_nr calls f1) in
  let w2 := fn_object (version code2 version_nr calls f2) in
  checksum (pre ++ w1 :: post) = checksum (pre ++ w2 :: post)
  /\ checksum (pre ++ py_partial w1 args keywords :: post)
     = checksum (pre ++ py_partial w2 args keywords :: post).
Proof.
  intros Hname w1 w2.
  assert (Hfeed : feed w1 = feed w2).
  { unfold w1, w2, version. cbn [fn_object].
    now rewrite !feed_with_checksum, Hname. }
  rewrite !checksum_unfold, !map_app. cbn [map].
  split.
  - now rewrite Hfeed.
  - rewrite !feed_partial. unfold fingerprint_text.
    rewrite !checksum_unfold. cbn [map concat]. now rewrite Hfeed.
Qed.

Lemma X3_witness :
  checksum [py_partial
              (fn_object (version [] (py_int 1) []
                            (mkFunction "msd" (py_function [x64] None)
                                        (fun n : nat => n))))
              [py_int 3] []]
  = checksum [py_partial
                (fn_object (version [] (py_int 1) []
                              (mkFunction "msd" (py_function [x53; x01]
                                                   (Some [py_none]))
                                          (fun n : nat => S n))))
                [py_int 3] []].
Proof.
  apply (proj2 (X3_version_hides_the_code [] [] (py_int 1) [] nat nat
                  (mkFunction "msd" (py_function [x64] None)
                              (fun n : nat => n))
                  (mkFunction "msd" (py_function [x53; x01] (Some [py_none]))
                              (fun n : nat => S n))
                  [] [] [py_int 3] [] eq_refl)).
Defined.

(** ** shifted_correlation: the accesses of any call *)

Section Follows.

Context {Frame : Type}.
Variable frames : FrameSequence Frame.

Lemma follows_ret {A : Type} (a : A) : follows frames (ret a) [].
Proof. left. split; [constructor | now exists a]. Qed.

Lemma follows_getitem (i : Z) : follows frames (getitem frames i) [i].
Proof.
  unfold getitem. destruct (frames_getitem frames i) as [f|] eqn:E.
  - left. split; [|now exists f].
    constructor; [|constructor]. unfold accessible. now rewrite E.
  - right. exists [], i, []. repeat split; [constructor | assumption].
Qed.

Lemma follows_bind {A B : Type} (m : M A) (k : A -> M B) (l1 l2 : list Z) :
  follows frames m l1 ->
  (forall a, m = (l1, inr a) -> follows frames (k a) l2) ->
  follows frames (bind m k) (l1 ++ l2).
Proof.
  intros [[Hok [a Hm]]|(pre & i & post & Hl & Hpre & Hi & Hm)] Hk.
  - specialize (Hk a Hm). subst m. unfold bind.
    destruct Hk as [[Hok2 [b Hb]]|(pre & i & post & Hl & Hpre & Hi & Hb)];
      rewrite Hb.
    + left. split; [now apply Forall_app | now exists b].
    + right. exists (l1 ++ pre), i, post. subst l2.
      rewrite <- !app_assoc. repeat split; try assumption.
      now apply Forall_app.
  - subst m l1. right. exists pre, i, (post ++ l2).
    rewrite <- app_assoc. repeat split; assumption.
Qed.

Lemma follows_for_each {A B : Type} (f : A -> M B) (lg : A -> list Z)
    (l : list A) :
  (forall a, In a l -> follows frames (f a) (lg a)) ->
  follows frames (for_each f l) (concat (map lg l)).
Proof.
  induction l as [|a l IH]; intros H; cbn [for_each map concat].
  - apply follows_ret.
  - apply follows_bind; [apply H; now left|]. intros b _.
    rewrite <- (app_nil_r (concat (map lg l))).
    apply follows_bind; [apply IH; intros; apply H; now right|].
    intros bs _. apply follows_ret.
Qed.

Lemma for_each_length {A B : Type} (f : A -> M B) (l : list A)
    (log : list Z) (bs : list B) :
  for_each f l = (log, inr bs) -> List.length bs = List.length l.
Proof.
  intros H.
  assert (Ho : outcome (for_each f l) = inr bs) by now rewrite H.
  apply for_each_inv in Ho as [_ Hall].
  symmetry. eapply Forall2_length; eassumption.
Qed.

Lemma concat_singletons {A : Type} (l : list A) :
  concat (map (fun i => [i]) l) = l.
Proof.
  induction l as [|i l IH]; cbn [map concat app];
    [reflexivity | now rewrite IH].
Qed.

Lemma follows_getitems (l : list Z) :
  follows frames (for_each (getitem frames) l) l.
Proof.
  rewrite <- (concat_singletons l) at 2.
  apply follows_for_each. intros i _. apply follows_getitem.
Qed.

Variable function : Frame -> Frame -> Q.

Lemma follows_correlate (idx : list Z) (s : Z) :
  idx <> [] ->
  follows frames (correlate function frames correlation idx s)
          (map (fun i => i + s) idx).
Proof.
  intros Hidx. unfold correlate.
  rewrite <- (app_nil_r (map (fun i => i + s) idx)) at 2.
  apply follows_bind; [apply follows_getitems|].
  intros fs Hfs. apply for_each_length in Hfs.
  rewrite length_map in Hfs.
  destruct fs as [|f0 fs]; [destruct idx; [congruence | discriminate]|].
  left. split; [constructor|]. unfold lift, correlation. eauto.
Qed.

Variable time : Frame -> Q.

Lemma follows_shifted_correlation
    (index_distribution : Z -> Z -> list Z)
    (segments : nat) (window : Q) (skip : option Q) (average : bool)
    (effective : Q) :
  effective_skip frames skip = inr effective ->
  (window + effective < 1)%Q ->
  let starts := start_frames_of frames segments window effective in
  let idx := index_distribution 0 (num_frames_of frames window) in
  idx <> [] ->
  follows frames
          (shifted_correlation time function frames index_distribution
                               correlation segments window skip average)
          (accesses starts idx).
Proof.
  intros Hskip Hguard starts idx Hidx. unfold shifted_correlation.
  rewrite Hskip, bind_lift_inr.
  apply Qltb_lt in Hguard. rewrite Hguard. cbn [negb]. cbv zeta.
  fold starts. fold idx. unfold accesses.
  apply follows_bind.
  { apply follows_for_each. intros s _. now apply follows_correlate. }
  intros rows _. apply follows_bind.
  { rewrite <- (concat_singletons idx) at 2.
    apply follows_for_each. intros i _.
    rewrite <- (app_nil_r [i]). apply follows_bind.
    - apply follows_getitem.
    - intros f _. apply follows_ret. }
  intros ts _. rewrite <- (app_nil_r [0]). apply follows_bind.
  - apply follows_getitem.
  - intros f0 _. apply follows_ret.
Qed.

End Follows.

Section CallOutcomes.

Context {Frame : Type}.
Variable time : Frame -> Q.
Variable function : Frame -> Frame -> Q.
Variable frames : FrameSequence Frame.

Lemma accessible_in_accesses (starts idx : list Z) (s i : Z) :
  In s starts -> In i idx -> In (i + s) (accesses starts idx).
Proof.
  intros Hs Hi. unfold accesses. apply in_or_app. left.
  apply in_concat. exists (map (fun j => j + s) idx). split.
  - apply in_map_iff. now exists s.
  - apply in_map_iff. now exists i.
Qed.

Lemma shifted_correlation_values (at_ : Z -> Frame)
    (index_distribution : Z -> Z -> list Z)
    (segments : nat) (window : Q) (skip : option Q) (average : bool)
    (effective : Q) :
  effective_skip frames skip = inr effective ->
  (window + effective < 1)%Q ->
  let starts := start_frames_of frames segments window effective in
  let idx := index_distribution 0 (num_frames_of frames window) in
  idx <> [] ->
  (forall i, In i (accesses starts idx) ->
             frames_getitem frames i = Some (at_ i)) ->
  let rows :=
    map (fun s => map (fun i => function (at_ (hd 0 idx + s)) (at_ (i + s)))
                      idx) starts in
  shifted_correlation time function frames index_distribution correlation
                      segments window skip average
  = (accesses starts idx,
     inr (map (fun i => (time (at_ i) - time (at_ 0%Z))%Q) idx,
          if average then mean_axis0 rows else Rows rows)).
Proof.
  intros Hskip Hguard starts idx Hidx Hget rows.
  unfold shifted_correlation.
  rewrite Hskip, bind_lift_inr.
  apply Qltb_lt in Hguard. rewrite Hguard. cbn [negb]. cbv zeta.
  fold starts. fold idx.
  rewrite (bind_inr _ _
             (concat (map (fun s => map (fun i => i + s) idx) starts)) rows).
  2:{ apply for_each_ok. intros s Hs.
      destruct idx as [|i0 rest] eqn:Eidx; [congruence|].
      apply correlate_ok. intros i Hi. apply Hget.
      now apply accessible_in_accesses. }
  rewrite (bind_inr _ _ idx (map (fun i => time (at_ i)) idx)).
  2:{ rewrite (for_each_ok _ (fun i => [i]) (fun i => time (at_ i))).
      - now rewrite concat_singletons.
      - intros i Hi. unfold getitem, bind, ret. rewrite Hget; [reflexivity|].
        unfold accesses. apply in_or_app. right. apply in_or_app. now left. }
  unfold getitem, bind, ret, fetched, outcome; simpl.
  rewrite (Hget 0).
  2:{ unfold accesses. apply in_or_app. right. apply in_or_app. right.
      now left. }
  cbn [snd]. rewrite map_map. reflexivity.
Qed.

End CallOutcomes.

(** X4. Out-of-range lag offsets are not recovered: when one of the
    frame accesses of a call that passes the guard (with the default
    combinator and a non-empty index distribution) fails, the call ends
    with [IndexError] at the first such access, having fetched exactly
    the accesses up to it. *)
Theorem X4_inaccessible_frame_raises_IndexError {Frame : Type}
    (time : Frame -> Q) (function : Frame -> Frame -> Q)
    (frames : FrameSequence Frame) (index_distribution : Z -> Z -> list Z)
    (segments : nat) (window : Q) (skip : option Q) (average : bool)
    (effective : Q) :
  effective_skip frames skip = inr effective ->
  (window + effective < 1)%Q ->
  let starts := start_frames_of frames segments window effective in
  let idx := index_distribution 0 (num_frames_of frames window) in
  idx <> [] ->
  (exists i, In i (accesses starts idx) /\ frames_getitem frames i = None) ->
  exists (pre : list Z) (i : Z) (post : list Z),
    accesses starts idx = pre ++ i :: post
    /\ Forall (accessible frames) pre
    /\ frames_getitem frames i = None
    /\ shifted_correlation time function frames index_distribution
                           correlation segments window skip average
       = (pre ++ [i], inl IndexError).
Proof.
  intros Hskip Hguard starts idx Hidx [i [Hin Hnone]].
  destruct (follows_shifted_correlation frames function time
              index_distribution segments window skip average effective
              Hskip Hguard Hidx)
    as [[Hall _]|(pre & j & post & Hl & Hpre & Hj & Hm)].
  - exfalso. rewrite Forall_forall in Hall. now apply (Hall i Hin).
  - now exists pre, j, post.
Qed.

Lemma X4_witness :
  exists (pre : list Z) (i : Z) (post : list Z),
    accesses [0; 1] [0; 6] = pre ++ i :: post
    /\ Forall (accessible (frames_of_list example_frames)) pre
    /\ frames_getitem (frames_of_list example_frames) i = None
    /\ shifted_correlation frame_time sum_difference
                           (frames_of_list example_frames)
                           (fun first last => [first; last + 4])
                           correlation 2 (1 # 2) None false
       = (pre ++ [i], inl IndexError).
Proof.
  apply (X4_inaccessible_frame_raises_IndexError frame_time sum_difference
           (frames_of_list example_frames)
           (fun first last => [first; last + 4]) 2 (1 # 2) None false 0%Q).
  - reflexivity.
  - reflexivity.
  - discriminate.
  - exists 6. split; [right; now left | reflexivity].
Defined.

(** X5. A call that passes the guard, with the default combinator, a
    non-empty index distribution and every access within the frames,
    returns: the lag times are [frames[i].time - frames[0].time]; row
    [k] holds, for each lag offset [i],
    [function(frames[idx[0] + s_k], frames[i + s_k])] with [s_k] the
    [k]-th start offset, so the reference of a segment is the frame at
    its first lag offset; with [average] the rows are replaced by their
    mean over the segments. *)
Theorem X5_completed_call_values {Frame : Type}
    (time : Frame -> Q) (function : Frame -> Frame -> Q)
    (frames : FrameSequence Frame) (at_ : Z -> Frame)
    (index_distribution : Z -> Z -> list Z)
    (segments : nat) (window : Q) (skip : option Q) (average : bool)
    (effective : Q) :
  effective_skip frames skip = inr effective ->
  (window + effective < 1)%Q ->
  let starts := start_frames_of frames segments window effective in
  let idx := index_distribution 0 (num_frames_of frames window) in
  idx <> [] ->
  (forall i, In i (accesses starts idx) ->
             frames_getitem frames i = Some (at_ i)) ->
  let rows :=
    map (fun s => map (fun i => function (at_ (hd 0 idx + s)) (at_ (i + s)))
                      idx) starts in
  shifted_correlation time function frames index_distribution correlation
                      segments window skip average
  = (accesses starts idx,
     inr (map (fun i => (time (at_ i) - time (at_ 0%Z))%Q) idx,
          if average then mean_axis0 rows else Rows rows))
  /\ List.length rows = segments
  /\ Forall (fun row => List.length row = List.length idx) rows.
Proof.
  intros Hskip Hguard starts idx Hidx Hget rows.
  split; [now apply shifted_correlation_values|].
  split.
  - unfold rows, starts, start_frames_of.
    now rewrite length_map, linspace_int_length.
  - unfold rows. apply Forall_forall. intros row Hrow.
    apply in_map_iff in Hrow as [s [<- _]]. apply length_map.
Qed.

Lemma X5_witness :
  shifted_correlation frame_time sum_difference
                      (frames_of_list example_frames)
                      linear_indices correlation 2 (2 # 5) (Some 0%Q) true
  = ([0; 1; 2; 1; 2; 3; 0; 1; 2; 0],
     inr ([0 - 0; 1 - 0; 2 - 0]%Q,
          mean_axis0 [[6 - 6; 6 - 9; 6 - 8]; [9 - 9; 9 - 8; 9 - 12]]%Q)).
Proof.
  pose proof (X5_completed_call_values frame_time sum_difference
                (frames_of_list example_frames)
                (fun i => nth (Z.to_nat i) example_frames (mkFrame 0 []))
                linear_indices 2 (2 # 5) (Some 0%Q) true 0%Q
                eq_refl eq_refl) as H.
  cbv zeta in H. destruct H as [H _].
  - discriminate.
  - intros i Hi. vm_compute in Hi.
    repeat (destruct Hi as [<-|Hi]; [reflexivity|]). contradiction.
  - rewrite H. vm_compute. reflexivity.
Defined.

(** ** shifted_correlation: calls without lags, and the order of
    the accesses *)

Section NoLags.

Context {Frame : Type}.
Variable time : Frame -> Q.
Variable function : Frame -> Frame -> Q.
Variable frames : FrameSequence Frame.

Lemma shifted_correlation_no_lags
    (index_distribution : Z -> Z -> list Z)
    (segments : nat) (window : Q) (skip : option Q) (average : bool)
    (effective : Q) :
  effective_skip frames skip = inr effective ->
  (window + effective < 1)%Q ->
  index_distribution 0 (num_frames_of frames window) = [] ->
  shifted_correlation time function frames index_distribution correlation
                      segments window skip average
  = match segments with
    | S _ => ([], inl StopIteration)
    | O => ([0],
            match frames_getitem frames 0 with
            | Some _ => inr ([], if average then MeanNaN else Rows [])
            | None => inl IndexError
            end)
    end.
Proof.
  intros Hskip Hguard Hidx. unfold shifted_correlation.
  rewrite Hskip, bind_lift_inr.
  apply Qltb_lt in Hguard. rewrite Hguard. cbn [negb]. cbv zeta.
  rewrite Hidx. unfold start_frames_of, linspace_int.
  destruct segments as [|n]; cbn [seq map for_each].
  - unfold bind, ret, getitem. cbn [app map].
    destruct (frames_getitem frames 0); [|reflexivity].
    now destruct average.
  - reflexivity.
Qed.

End NoLags.

(** X7. An index distribution that returns no lag offset: with at least
    one segment the call ends with [StopIteration] (the default
    combinator finds no first frame) before any frame is accessed; with
    no segment it accesses [frames[0]] only and returns no lag times
    with an empty matrix, or [nan] with [average], unless that access
    fails. *)
Theorem X7_empty_index_distribution {Frame : Type}
    (time : Frame -> Q) (function : Frame -> Frame -> Q)
    (frames : FrameSequence Frame) (index_distribution : Z -> Z -> list Z)
    (segments : nat) (window : Q) (skip : option Q) (average : bool)
    (effective : Q) :
  effective_skip frames skip = inr effective ->
  (window + effective < 1)%Q ->
  index_distribution 0 (num_frames_of frames window) = [] ->
  let call := shifted_correlation time function frames index_distribution
                correlation segments window skip average in
  ((0 < segments)%nat -> call = ([], inl StopIteration))
  /\ (segments = 0%nat ->
      fetched call = [0]
      /\ (frames_getitem frames 0 = None -> outcome call = inl IndexError)
      /\ (frames_getitem frames 0 <> None ->
          outcome call
          = inr ([], if average then MeanNaN else Rows []))).
Proof.
  intros Hskip Hguard Hidx call. unfold call.
  rewrite (shifted_correlation_no_lags time function frames
             index_distribution segments window skip average effective
             Hskip Hguard Hidx).
  split.
  - intros Hseg. destruct segments; [lia | reflexivity].
  - intros ->. split; [reflexivity|]. split.
    + intros ->. reflexivity.
    + intros Hsome. destruct (frames_getitem frames 0); [reflexivity|].
      congruence.
Qed.

Lemma X7_witness :
  shifted_correlation frame_time sum_difference
                      (frames_of_list example_frames)
                      (fun _ _ => []) correlation 4 (1 # 2) None false
  = ([], inl StopIteration).
Proof.
  apply (proj1 (X7_empty_index_distribution frame_time sum_difference
                  (frames_of_list example_frames) (fun _ _ => [])
                  4 (1 # 2) None false 0%Q eq_refl eq_refl eq_refl)).
  lia.
Defined.

(** X8. Whatever happens, a call with the default combinator accesses
    the frames only along the fixed access order (the shifted lag
    offsets segment by segment, then the lag offsets, then 0): the
    indices it has fetched are a prefix of that list. *)
Theorem X8_accesses_form_a_prefix {Frame : Type}
    (time : Frame -> Q) (function : Frame -> Frame -> Q)
    (frames : FrameSequence Frame) (index_distribution : Z -> Z -> list Z)
    (segments : nat) (window : Q) (skip : option Q) (average : bool)
    (effective : Q) :
  effective_skip frames skip = inr effective ->
  let starts := start_frames_of frames segments window effective in
  let idx := index_distribution 0 (num_frames_of frames window) in
  exists rest : list Z,
    accesses starts idx
    = fetched (shifted_correlation time function frames index_distribution
                 correlation segments window skip average) ++ rest.
Proof.
  intros Hskip starts idx.
  pose proof (eq_refl idx) as Eidx. unfold idx at 2 in Eidx.
  clearbody idx. unfold starts. clear starts.
  destruct (Qlt_le_dec (window + effective) 1) as [Hguard|Hguard].
  - destruct idx as [|i0 idx'].
    + rewrite (shifted_correlation_no_lags time function frames
                 index_distribution segments window skip average effective
                 Hskip Hguard (eq_sym Eidx)).
      destruct segments as [|n].
      * exists []. unfold start_frames_of, linspace_int. reflexivity.
      * eexists. reflexivity.
    + destruct (follows_shifted_correlation frames function time
                  index_distribution segments window skip average effective
                  Hskip Hguard)
        as [[_ [a Hm]]|(pre & j & post & Hl & _ & _ & Hm)].
      * rewrite <- Eidx. discriminate.
      * rewrite <- Eidx in Hm. rewrite Hm. exists [].
        now rewrite app_nil_r.
      * rewrite <- Eidx in Hl. rewrite Hm, Hl. exists post.
        cbn [fetched fst]. now rewrite <- app_assoc.
  - unfold shifted_correlation. rewrite Hskip, bind_lift_inr.
    apply Qltb_ge in Hguard. rewrite Hguard.
    eexists. reflexivity.
Qed.

Lemma X8_witness :
  exists rest : list Z,
    accesses [0; 1] [0; 6]
    = fetched (shifted_correlation frame_time sum_difference
                 (frames_of_list example_frames)
                 (fun first last => [first; last + 4])
                 correlation 2 (1 # 2) None false) ++ rest.
Proof.
  apply (X8_accesses_form_a_prefix frame_time sum_difference
           (frames_of_list example_frames)
           (fun first last => [first; last + 4]) 2 (1 # 2) None false 0%Q).
  reflexivity.
Defined.

(** ** correlation.py: msd and non_gaussian *)

Section Displacements.

Lemma Qsum_nonneg (l : list Q) : Forall (fun q => (0 <= q)%Q) l -> (0 <= Qsum l)%Q.
Proof.
  induction 1 as [|q l Hq _ IH]; simpl; [apply Qle_refl | lra].
Qed.

Lemma Qsum_zero (l : list Q) : Forall (fun q => (q == 0)%Q) l -> (Qsum l == 0)%Q.
Proof.
  induction 1 as [|q l Hq _ IH]; simpl; [reflexivity | lra].
Qed.

Lemma Qsum_Forall2 (l l' : list Q) : Forall2 Qeq l l' -> (Qsum l == Qsum l')%Q.
Proof.
  induction 1 as [|q q' l l' Hq _ IH]; simpl; [reflexivity | lra].
Qed.

Lemma squares_nonneg (row : list Q) :
  (0 <= Qsum (map (fun v => v * v) row))%Q.
Proof.
  apply Qsum_nonneg, Forall_forall. intros q Hq.
  apply in_map_iff in Hq as [v [<- _]]. nra.
Qed.

Lemma squared_norms_nonneg (a : array2) :
  Forall (fun q => (0 <= q)%Q) (squared_norms a).
Proof.
  apply Forall_forall. intros q Hq. unfold squared_norms in Hq.
  apply in_map_iff in Hq as [row [<- _]]. apply squares_nonneg.
Qed.

Lemma np_mean_nonneg (l : list Q) (v : Q) :
  Forall (fun q => (0 <= q)%Q) l -> np_mean l = Value v -> (0 <= v)%Q.
Proof.
  intros Hl Hv. destruct l as [|q l]; [discriminate|].
  injection Hv as <-. apply Qle_shift_div_l.
  - apply (Q_of_nat_lt 0). simpl; lia.
  - rewrite Qmult_0_l. exact (Qsum_nonneg (q :: l) Hl).
Qed.

Lemma subtract1_self (r : list Q) :
  exists d, subtract1 r r = Some d
            /\ (Qsum (map (fun v => v * v) d) == 0)%Q.
Proof.
  induction r as [|x r [d [Hd Hz]]]; simpl.
  - now exists [].
  - rewrite Hd. eexists. split; [reflexivity|]. simpl. rewrite Hz. ring.
Qed.

Lemma subtract2_self (a : array2) :
  exists vec, subtract2 a a = Some vec
              /\ List.length vec = List.length a
              /\ Forall (fun q => (q == 0)%Q) (squared_norms vec).
Proof.
  induction a as [|r a (vec & Hvec & Hlen & Hz)]; simpl.
  - exists []. repeat split. constructor.
  - destruct (subtract1_self r) as [d [Hd Hdz]]. rewrite Hd, Hvec.
    eexists. split; [reflexivity|]. split; [simpl; now rewrite Hlen|].
    simpl. now constructor.
Qed.

Lemma subtract1_sym (r s : list Q) :
  match subtract1 r s, subtract1 s r with
  | Some d, Some d' =>
      (Qsum (map (fun v => v * v) d) == Qsum (map (fun v => v * v) d'))%Q
  | None, None => True
  | _, _ => False
  end.
Proof.
  revert s; induction r as [|x r IH]; intros [|y s]; simpl; try exact I.
  - reflexivity.
  - specialize (IH s).
    destruct (subtract1 r s), (subtract1 s r); try exact IH.
    simpl. rewrite IH. ring.
Qed.

Lemma subtract2_sym (a b : array2) :
  match subtract2 a b, subtract2 b a with
  | Some v, Some v' => Forall2 Qeq (squared_norms v) (squared_norms v')
  | None, None => True
  | _, _ => False
  end.
Proof.
  revert b; induction a as [|r a IH]; intros [|s b]; simpl; try exact I.
  - constructor.
  - specialize (IH b). pose proof (subtract1_sym r s) as Hrow.
    destruct (subtract1 r s), (subtract1 s r); try contradiction;
      destruct (subtract2 a b), (subtract2 b a); try contradiction;
      try exact I.
    simpl. now constructor.
Qed.

End Displacements.

(** X10. [msd] is symmetric in its two frames, is never negative, and
    at zero lag (the same frame twice) is 0, or [nan] when the frame has
    no particle. *)
Theorem X10_msd_symmetric_nonnegative_zero_at_zero_lag (start frame : array2) :
  match msd start frame, msd frame start with
  | Some (Value v), Some (Value v') => (v == v')%Q /\ (0 <= v)%Q
  | Some NaN, Some NaN => start = [] /\ frame = []
  | None, None => True
  | _, _ => False
  end
  /\ match msd start start with
     | Some (Value v) => start <> [] /\ (v == 0)%Q
     | Some NaN => start = []
     | None => False
     end.
Proof.
  split.
  - unfold msd. pose proof (subtract2_sym start frame) as Hsym.
    destruct (subtract2 start frame) as [v|] eqn:Ev,
             (subtract2 frame start) as [v'|] eqn:Ev';
      try contradiction; [|exact I].
    pose proof (Forall2_length Hsym) as Hlen.
    destruct (squared_norms v) as [|q l] eqn:Eq,
             (squared_norms v') as [|q' l'] eqn:Eq'; try discriminate.
    + cbn [np_mean]. unfold squared_norms in Eq, Eq'.
      apply map_eq_nil in Eq, Eq'. subst v v'.
      destruct start, frame; simpl in Ev; try discriminate; [now split|].
      destruct (subtract1 l l0), (subtract2 start frame); discriminate.
    + cbn [np_mean]. split.
      * apply Qsum_Forall2 in Hsym. rewrite Hsym, Hlen. reflexivity.
      * apply (np_mean_nonneg (q :: l)); [|reflexivity].
        rewrite <- Eq. apply squared_norms_nonneg.
  - unfold msd. destruct (subtract2_self start) as (vec & -> & Hlen & Hz).
    destruct (squared_norms vec) as [|q l] eqn:Eq.
    + cbn [np_mean]. unfold squared_norms in Eq. apply map_eq_nil in Eq.
      subst vec. destruct start; [reflexivity | discriminate].
    + cbn [np_mean]. split.
      * intros ->. destruct vec; discriminate.
      * rewrite (Qsum_zero _ Hz). unfold Qdiv. ring.
Qed.

(** X12. At zero lag, that is for the same frame twice, [non_gaussian]
    never yields a number: every displacement is 0 and the value is
    0/0 (or the mean of nothing). *)
Theorem X12_non_gaussian_undefined_at_zero_lag (frame : array2) :
  non_gaussian frame frame = Some NaN.
Proof.
  unfold non_gaussian.
  destruct (subtract2_self frame) as (vec & -> & _ & Hz). cbv zeta.
  destruct (squared_norms vec) as [|q l] eqn:Eq; [reflexivity|].
  cbn [map np_mean].
  assert (Hm : (Qsum (q :: l) / Q_of_nat (List.length (q :: l)) == 0)%Q).
  { rewrite (Qsum_zero _ Hz). unfold Qdiv. ring. }
  assert (Hsq : Qeq_bool
                  (Qsum (q :: l) / Q_of_nat (List.length (q :: l))
                   * (Qsum (q :: l) / Q_of_nat (List.length (q :: l)))) 0
                = true).
  { apply Qeq_bool_iff. rewrite Hm. ring. }
  now rewrite Hsq.
Qed.

(** ** utils.py: five_point_stencil *)

Section Slices.

Context {A : Type}.
Variable d : A.

Lemma firstn_skipn_nth (l : list A) (a k : nat) :
  (a + k <= List.length l)%nat ->
  firstn k (skipn a l) = map (fun j => nth (a + j) l d) (seq 0 k).
Proof.
  revert l a. induction k as [|k IH]; intros l a Hlen; [reflexivity|].
  cbn [seq map]. rewrite <- seq_shift, map_map.
  destruct (skipn a l) as [|x rest] eqn:E.
  - exfalso. assert (H := length_skipn a l). rewrite E in H. simpl in H. lia.
  - cbn [firstn]. f_equal.
    + rewrite Nat.add_0_r.
      assert (H : nth a l d = nth 0 (skipn a l) d).
      { rewrite nth_skipn. f_equal. lia. }
      rewrite H, E. reflexivity.
    + assert (Hrest : rest = skipn (S a) l).
      { change (S a) with (1 + a)%nat. rewrite <- skipn_skipn, E.
        reflexivity. }
      rewrite Hrest, (IH l (S a)) by lia.
      apply map_ext. intros j. f_equal. lia.
Qed.

(** [l[a:-c]] for [a >= 0] and [c >= 1], and [l[a:]]. *)
Lemma py_slice_to_end_minus (l : list A) (a c : nat) :
  (0 < c)%nat ->
  py_slice l (Some (Z.of_nat a)) (Some (- Z.of_nat c))
  = map (fun j => nth (a + j) l d) (seq 0 (List.length l - c - a)).
Proof.
  intros Hc. unfold py_slice.
  destruct (Z.ltb_spec (Z.of_nat a) 0); [lia|].
  destruct (Z.ltb_spec (- Z.of_nat c) 0); [|lia].
  destruct (Nat.le_gt_cases (a + c) (List.length l)) as [Hfit|Hshort].
  - replace (Z.to_nat (Z.max 0 (- Z.of_nat c + Z.of_nat (List.length l))
                       - Z.min (Z.of_nat a) (Z.of_nat (List.length l))))
      with (List.length l - c - a)%nat by lia.
    replace (Z.to_nat (Z.min (Z.of_nat a) (Z.of_nat (List.length l))))
      with a by lia.
    apply firstn_skipn_nth. lia.
  - replace (Z.to_nat (Z.max 0 (- Z.of_nat c + Z.of_nat (List.length l))
                       - Z.min (Z.of_nat a) (Z.of_nat (List.length l))))
      with 0%nat by lia.
    replace (List.length l - c - a)%nat with 0%nat by lia.
    reflexivity.
Qed.

Lemma py_slice_to_end (l : list A) (a : nat) :
  py_slice l (Some (Z.of_nat a)) None
  = map (fun j => nth (a + j) l d) (seq 0 (List.length l - a)).
Proof.
  unfold py_slice.
  destruct (Z.ltb_spec (Z.of_nat a) 0); [lia|].
  destruct (Nat.le_gt_cases a (List.length l)) as [Hfit|Hshort].
  - replace (Z.to_nat (Z.of_nat (List.length l)
                       - Z.min (Z.of_nat a) (Z.of_nat (List.length l))))
      with (List.length l - a)%nat by lia.
    replace (Z.to_nat (Z.min (Z.of_nat a) (Z.of_nat (List.length l))))
      with a by lia.
    apply firstn_skipn_nth. lia.
  - replace (Z.to_nat (Z.of_nat (List.length l)
                       - Z.min (Z.of_nat a) (Z.of_nat (List.length l))))
      with 0%nat by lia.
    replace (List.length l - a)%nat with 0%nat by lia.
    reflexivity.
Qed.

Lemma py_slice_from_start_minus (l : list A) (c : nat) :
  (0 < c)%nat ->
  py_slice l None (Some (- Z.of_nat c))
  = map (fun j => nth j l d) (seq 0 (List.length l - c)).
Proof.
  intros Hc. unfold py_slice.
  destruct (Z.ltb_spec (- Z.of_nat c) 0); [|lia].
  replace (Z.to_nat (Z.max 0 (- Z.of_nat c + Z.of_nat (List.length l)) - 0))
    with (List.length l - c)%nat by lia.
  change (Z.to_nat 0) with 0%nat.
  rewrite (firstn_skipn_nth l 0 (List.length l - c)) by lia.
  reflexivity.
Qed.

End Slices.

Section Broadcast.

Lemma zip_with_maps {A B C I : Type} (f : A -> B -> C)
    (g : I -> A) (h : I -> B) (s : list I) :
  zip_with f (map g s) (map h s) = map (fun j => f (g j) (h j)) s.
Proof. induction s as [|j s IH]; simpl; [reflexivity | now rewrite IH]. Qed.

Lemma broadcast1_maps {A B C I : Type} (f : A -> B -> C)
    (g : I -> A) (h : I -> B) (s : list I) :
  broadcast1 f (map g s) (map h s) = Some (map (fun j => f (g j) (h j)) s).
Proof.
  unfold broadcast1. rewrite !length_map, Nat.eqb_refl.
  now rewrite zip_with_maps.
Qed.

Lemma broadcast1_mismatch {A B C : Type} (f : A -> B -> C)
    (a : list A) (b : list B) :
  List.length a <> List.length b ->
  List.length a <> 1%nat -> List.length b <> 1%nat ->
  broadcast1 f a b = None.
Proof.
  intros Hab Ha Hb. unfold broadcast1.
  apply Nat.eqb_neq in Hab. rewrite Hab.
  destruct a as [|x [|x' a]], b as [|y [|y' b]]; simpl in *;
    try reflexivity; congruence.
Qed.

End Broadcast.

Section Stencil.

Variables xdata ydata : list Q.

Let x (j : nat) : Q := nth j xdata 0%Q.
Let y (j : nat) : Q := nth j ydata 0%Q.

Lemma stencil_numerator :
  exists numerator,
    numerator
    = map (fun j => (- y (3 + j) + 8 * y (2 + j) - 8 * y (1 + j) + y j)%Q)
          (seq 0 (List.length ydata - 3))
    /\ five_point_stencil xdata ydata
       = match broadcast1 np_true_divide numerator
                 (map (fun j => (12 * (x (2 + j) - x (1 + j)))%Q)
                      (seq 0 (List.length xdata - 3))) with
         | Some derivative =>
             Some (map (fun j => x (1 + j)) (seq 0 (List.length xdata - 2)),
                   derivative)
         | None => None
         end.
Proof.
  eexists. split; [reflexivity|]. unfold five_point_stencil.
  change 3%Z with (Z.of_nat 3). change 2%Z with (Z.of_nat 2).
  change 1%Z with (Z.of_nat 1).
  change (-1)%Z with (- Z.of_nat 1)%Z. change (-2)%Z with (- Z.of_nat 2)%Z.
  change (-3)%Z with (- Z.of_nat 3)%Z.
  rewrite (py_slice_to_end 0%Q ydata 3).
  rewrite !(py_slice_to_end_minus 0%Q ydata) by lia.
  rewrite !(py_slice_to_end_minus 0%Q xdata) by lia.
  rewrite (py_slice_from_start_minus 0%Q ydata 3) by lia.
  replace (List.length ydata - 1 - 2)%nat with (List.length ydata - 3)%nat
    by lia.
  replace (List.length ydata - 2 - 1)%nat with (List.length ydata - 3)%nat
    by lia.
  replace (List.length xdata - 1 - 2)%nat with (List.length xdata - 3)%nat
    by lia.
  replace (List.length xdata - 2 - 1)%nat with (List.length xdata - 3)%nat
    by lia.
  replace (List.length xdata - 1 - 1)%nat with (List.length xdata - 2)%nat
    by lia.
  rewrite !map_map.
  rewrite (broadcast1_maps Qplus). rewrite (broadcast1_maps Qminus).
  rewrite (broadcast1_maps Qplus). rewrite (broadcast1_maps Qminus).
  rewrite map_map. reflexivity.
Qed.

End Stencil.

Lemma nth_map_in {A B : Type} (g : A -> B) (l : list A) (j : nat)
    (d : B) (d' : A) :
  (j < List.length l)%nat -> nth j (map g l) d = g (nth j l d').
Proof.
  revert j; induction l as [|a l IH]; intros j Hj; simpl in *; [lia|].
  destruct j; [reflexivity | apply IH; lia].
Qed.

(** X13. For arrays [xdata] and [ydata] of one length [n],
    [five_point_stencil] returns the [n - 2] inner x values together
    with only [n - 3] quotients, entry [j] being
    [(-y[j+3] + 8 y[j+2] - 8 y[j+1] + y[j]) / (12 (x[j+2] - x[j+1]))],
    computed from the four consecutive points [j .. j+3] (no number
    where the two x values coincide); arrays shorter than four give no
    quotient at all. *)
Theorem X13_five_point_stencil_entries (xdata ydata : list Q) :
  List.length xdata = List.length ydata ->
  let n := List.length xdata in
  let x j := nth j xdata 0%Q in
  let y j := nth j ydata 0%Q in
  exists (x_out : list Q) (derivative : list np_scalar),
    five_point_stencil xdata ydata = Some (x_out, derivative)
    /\ x_out = map (fun j => x (1 + j)%nat) (seq 0 (n - 2))
    /\ derivative
       = map (fun j =>
                np_true_divide
                  (- y (3 + j)%nat + 8 * y (2 + j)%nat - 8 * y (1 + j)%nat
                   + y j)%Q
                  (12 * (x (2 + j)%nat - x (1 + j)%nat))%Q)
             (seq 0 (n - 3))
    /\ List.length x_out = (n - 2)%nat
    /\ List.length derivative = (n - 3)%nat.
Proof.
  intros Hlen n x y.
  destruct (stencil_numerator xdata ydata) as [numerator [-> Hcall]].
  rewrite <- Hlen in Hcall. fold n in Hcall.
  rewrite broadcast1_maps in Hcall.
  eexists _, _. split; [exact Hcall|].
  split; [reflexivity|]. split; [reflexivity|].
  now rewrite !length_map, !length_seq.
Qed.

Lemma X13_witness :
  exists (x_out : list Q) (derivative : list np_scalar),
    five_point_stencil [0; 1; 3; 4; 6]%Q [2; 0; 5; 1; 7]%Q
    = Some (x_out, derivative)
    /\ List.length x_out = 3%nat
    /\ List.length derivative = 2%nat.
Proof.
  destruct (X13_five_point_stencil_entries [0; 1; 3; 4; 6]%Q [2; 0; 5; 1; 7]%Q
              eq_refl) as (x_out & derivative & H & _ & _ & Hx & Hd).
  now exists x_out, derivative.
Defined.

(** X14. Arrays of different lengths are not accepted silently: unless
    one of them has exactly four entries (a single quotient or a single
    x difference is then stretched) or both have at most three, the
    division cannot broadcast and the call raises. *)
Theorem X14_five_point_stencil_length_mismatch (xdata ydata : list Q) :
  (List.length xdata - 3 <> List.length ydata - 3)%nat ->
  List.length xdata <> 4%nat -> List.length ydata <> 4%nat ->
  five_point_stencil xdata ydata = None.
Proof.
  intros Hdiff Hx Hy.
  destruct (stencil_numerator xdata ydata) as [numerator [-> ->]].
  rewrite broadcast1_mismatch; [reflexivity| | |];
    rewrite ?length_map, ?length_seq; lia.
Qed.

Lemma X14_witness :
  five_point_stencil [0; 1; 2; 3; 4; 5]%Q [0; 1; 4; 9; 16; 25; 36; 49]%Q = None.
Proof.
  apply X14_five_point_stencil_length_mismatch; simpl; lia.
Defined.

(** X15. On equally spaced x values [x0 + i h] with [h <> 0] and data
    on a straight line [y = m x + c], every quotient
    [five_point_stencil] returns is [5 m / 12]: the four points it
    combines are consecutive, not centred, so the slope [m] itself is
    returned only when it is 0. *)
Theorem X15_five_point_stencil_on_a_line (x0 h m c : Q) (n : nat) :
  ~ (h == 0)%Q ->
  let xdata := map (fun i => (x0 + Q_of_nat i * h)%Q) (seq 0 n) in
  let ydata := map (fun v => (m * v + c)%Q) xdata in
  exists (x_out : list Q) (derivative : list np_scalar),
    five_point_stencil xdata ydata = Some (x_out, derivative)
    /\ List.length derivative = (n - 3)%nat
    /\ Forall (fun e => exists v, e = Value v /\ (v == (5 # 12) * m)%Q)
              derivative.
Proof.
  intros Hh xdata ydata.
  assert (Hlenx : List.length xdata = n)
    by (unfold xdata; now rewrite length_map, length_seq).
  assert (Hleny : List.length ydata = n)
    by (unfold ydata; now rewrite length_map).
  assert (Hx : forall j, (j < n)%nat ->
                         nth j xdata 0%Q = (x0 + Q_of_nat j * h)%Q).
  { intros j Hj. unfold xdata.
    rewrite (nth_map_in _ _ j 0%Q 0%nat) by (now rewrite length_seq).
    now rewrite seq_nth. }
  assert (Hy : forall j, (j < n)%nat ->
                         nth j ydata 0%Q
                         = (m * (x0 + Q_of_nat j * h) + c)%Q).
  { intros j Hj. unfold ydata.
    rewrite (nth_map_in _ _ j 0%Q 0%Q) by (now rewrite Hlenx).
    now rewrite Hx. }
  destruct (stencil_numerator xdata ydata) as [numerator [-> Hcall]].
  rewrite Hlenx, Hleny, broadcast1_maps in Hcall.
  eexists _, _. split; [exact Hcall|].
  split; [now rewrite length_map, length_seq|].
  apply Forall_forall. intros e He.
  apply in_map_iff in He as [j [<- Hj]]. apply in_seq in Hj.
  rewrite !Hx, !Hy by lia.
  assert (Hsucc : forall k, (Q_of_nat (k + j) == inject_Z (Z.of_nat k)
                                                + Q_of_nat j)%Q).
  { intros k. unfold Q_of_nat. now rewrite Nat2Z.inj_add, inject_Z_plus. }
  unfold np_true_divide.
  destruct (Qeq_bool _ 0) eqn:Ez.
  - exfalso. apply Qeq_bool_iff in Ez. apply Hh.
    rewrite (Hsucc 2%nat), (Hsucc 1%nat) in Ez.
    change (inject_Z (Z.of_nat 2)) with 2%Q in Ez.
    change (inject_Z (Z.of_nat 1)) with 1%Q in Ez.
    lra.
  - eexists. split; [reflexivity|].
    rewrite (Hsucc 3%nat), (Hsucc 2%nat), (Hsucc 1%nat).
    change (inject_Z (Z.of_nat 3)) with 3%Q.
    change (inject_Z (Z.of_nat 2)) with 2%Q.
    change (inject_Z (Z.of_nat 1)) with 1%Q.
    field. intros E. apply Hh. lra.
Qed.

Lemma X15_witness :
  exists (x_out : list Q) (derivative : list np_scalar),
    five_point_stencil [0; 1; 2; 3; 4; 5]%Q [1; 3; 5; 7; 9; 11]%Q
    = Some (x_out, derivative)
    /\ List.length derivative = 3%nat
    /\ Forall (fun e => exists v, e = Value v /\ (v == (5 # 12) * 2)%Q)
              derivative.
Proof.
  destruct (X15_five_point_stencil_on_a_line 0 1 2 1 6)
    as (x_out & derivative & Hcall & Hlen & Hall); [discriminate|].
  exists x_out, derivative. split; [|now split].
  rewrite <- Hcall. reflexivity.
Defined.

(** ** correlation.py: more on log_indices and on averaging *)

Section IndexCounts.

Lemma insert_unique_length (x : Z) (l : list Z) :
  (List.length (insert_unique x l) <= S (List.length l))%nat.
Proof.
  induction l as [|y l IH]; simpl; [lia|].
  destruct (x <? y); [simpl; lia|].
  destruct (x =? y); simpl; lia.
Qed.

Lemma unique_length (l : list Z) :
  (List.length (unique l) <= List.length l)%nat.
Proof.
  unfold unique. induction l as [|x l IH]; simpl; [lia|].
  pose proof (insert_unique_length x (fold_right insert_unique [] l)). lia.
Qed.

Lemma sorted_range_length (l : list Z) (lo hi : Z) :
  StronglySorted Z.lt l -> lo <= hi + 1 ->
  (forall x, In x l -> lo <= x <= hi) ->
  Z.of_nat (List.length l) <= hi - lo + 1.
Proof.
  intros Hs. revert lo. induction Hs as [|z l Hs IH Hall]; intros lo Hlo Hr.
  - simpl. lia.
  - rewrite Forall_forall in Hall.
    pose proof (Hr z (or_introl eq_refl)) as Hz.
    assert (Hl : Z.of_nat (List.length l) <= hi - (z + 1) + 1).
    { apply IH; [lia|]. intros x Hx.
      specialize (Hall x Hx). specialize (Hr x (or_intror Hx)). lia. }
    cbn [List.length]. lia.
Qed.

Transparent log_indices.

Lemma log_indices_length (first last : Z) (num : nat) :
  (List.length (log_indices first last num) <= num)%nat.
Proof.
  unfold log_indices, logspace.
  eapply Nat.le_trans; [apply unique_length|].
  now rewrite !length_map, length_seq.
Qed.

Opaque log_indices.

End IndexCounts.

(** X16. For [first <= last] and [num >= 1], [log_indices(first, last,
    num)] is strictly increasing, begins with [first], stays within
    [first .. last], and has at most [num] and at most
    [last - first + 1] entries. *)
Theorem X16_log_indices_shape (first last : Z) (num : nat) :
  first <= last -> (0 < num)%nat ->
  let l := log_indices first last num in
  StronglySorted Z.lt l
  /\ hd_error l = Some first
  /\ (forall i, In i l -> first <= i <= last)
  /\ (List.length l <= num)%nat
  /\ Z.of_nat (List.length l) <= last - first + 1.
Proof.
  intros Hfl Hnum l.
  assert (Hrange : forall i, In i l -> first <= i <= last).
  { intros i Hi. now apply (log_indices_range first last num). }
  split; [apply log_indices_sorted|].
  split; [now apply log_indices_hd|].
  split; [exact Hrange|].
  split; [apply log_indices_length|].
  apply sorted_range_length; [apply log_indices_sorted | lia | exact Hrange].
Qed.

Lemma X16_witness :
  let l := log_indices 10 14 100 in
  StronglySorted Z.lt l
  /\ hd_error l = Some 10
  /\ (forall i, In i l -> 10 <= i <= 14)
  /\ (List.length l <= 100)%nat
  /\ Z.of_nat (List.length l) <= 5.
Proof.
  apply (X16_log_indices_shape 10 14 100); lia.
Defined.

Section Averaging.

Lemma mean_axis0_single (row : list Q) :
  exists v, mean_axis0 [row] = Mean v /\ Forall2 Qeq v row.
Proof.
  unfold mean_axis0. eexists. split; [reflexivity|].
  cbn [map Qsum fold_right List.length].
  assert (H : forall (pre : list Q),
            Forall2 Qeq
              (map (fun j => ((nth j (pre ++ row) 0 + 0) / Q_of_nat 1)%Q)
                   (seq (List.length pre) (List.length row)))
              row).
  { induction row as [|q row IH]; intros pre; cbn [List.length seq map];
      constructor.
    - rewrite app_nth2 by lia. rewrite Nat.sub_diag. cbn [nth].
      unfold Q_of_nat. change (inject_Z (Z.of_nat 1)) with 1%Q.
      field.
    - specialize (IH (pre ++ [q])).
      rewrite <- app_assoc, length_app in IH. cbn [List.length app] in IH.
      rewrite Nat.add_1_r in IH. exact IH. }
  exact (H []).
Qed.

End Averaging.

(** X17. Averaging over a single segment changes nothing: with
    [segments=1], a call that completes with [average=True] returns the
    lag times and, as mean, the values of the one row that the same
    call returns with [average=False]. *)
Theorem X17_average_of_one_segment {Frame : Type}
    (time : Frame -> Q) (function : Frame -> Frame -> Q)
    (frames : FrameSequence Frame) (index_distribution : Z -> Z -> list Z)
    (window : Q) (skip : option Q)
    (log : list Z) (times : list Q) (row : list Q) :
  shifted_correlation time function frames index_distribution correlation
                      1 window skip false
  = (log, inr (times, Rows [row])) ->
  exists mean : list Q,
    shifted_correlation time function frames index_distribution correlation
                        1 window skip true
    = (log, inr (times, Mean mean))
    /\ Forall2 Qeq mean row.
Proof.
  unfold shifted_correlation.
  destruct (effective_skip frames skip) as [e|effective];
    [intros H; discriminate H|].
  rewrite !bind_lift_inr.
  destruct (negb (Qltb (window + effective) 1)); [intros H; discriminate H|].
  cbv zeta.
  destruct (for_each _ (start_frames_of frames 1 window effective))
    as [log1 [e|rows]]; [intros H; discriminate H|].
  unfold bind at 1 3.
  destruct (for_each _ (index_distribution 0 (num_frames_of frames window)))
    as [log2 [e|ts]]; [intros H; discriminate H|].
  unfold bind at 1 3.
  unfold getitem. destruct (frames_getitem frames 0) as [f0|];
    [|intros H; discriminate H].
  unfold bind, ret. intros H. injection H as Hlog Htimes Hrows.
  subst rows. destruct (mean_axis0_single row) as [v [Hv Hall]].
  exists v. subst log times. rewrite Hv. split; [reflexivity | exact Hall].
Qed.

Lemma X17_witness :
  exists mean : list Q,
    shifted_correlation frame_time sum_difference
                        (frames_of_list example_frames)
                        linear_indices correlation 1 (2 # 5) None true
    = ([0; 1; 2; 0; 1; 2; 0],
       inr ([0 - 0; 1 - 0; 2 - 0]%Q, Mean mean))
    /\ Forall2 Qeq mean [6 - 6; 6 - 9; 6 - 8]%Q.
Proof.
  apply (X17_average_of_one_segment frame_time sum_difference
           (frames_of_list example_frames) linear_indices (2 # 5) None).
  vm_compute. reflexivity.
Defined.
